(** * Nikkei 225 heatmap generator: scripts/fetch_data.py

    A shallow embedding of the price resolver ([fetch_price_data]), of the
    colour classifier ([get_color], [get_text_color]), of the server-side
    renderer ([generate_html]) and of the script embedded in the generated
    page ([getColor], [getTextColor], [makeTile], [sortBy]).

    Numbers.  Python floats, numpy float64 scalars and JavaScript numbers
    are IEEE binary64 values.  They are modelled by [pyfloat]: a finite
    value is the rational it denotes, and the negative zero, the two
    infinities and NaN are kept apart.  The binary64 values are some of
    the rationals; a comparison reads a rational exactly, as binary64
    comparisons do, and an arithmetic operation returns the exact result
    rounded to the nearest binary64 value, the even one of two nearest,
    as binary64 arithmetic does on binary64 operands. *)

From Stdlib Require Import ZArith QArith Qreduction Qabs Lqa Lia.
From Stdlib Require Import List Bool Ascii String Sorted Permutation.
From Stdlib Require Import PrimFloat FloatOps SpecFloat.
From Stdlib Require OrderedTypeEx.
Import ListNotations.

Close Scope Q_scope.
Local Open Scope string_scope.
Set Warnings "-register-all".

(** ** Floating-point values *)

Inductive pyfloat : Type :=
| Fin (q : Q)
| NegZero
| PosInf
| NegInf
| NaN.

Definition is_nan (x : pyfloat) : bool :=
  match x with NaN => true | _ => false end.

(** [x <= y]; any comparison with NaN is false, and the negative zero
    compares as zero. *)
Definition fle (x y : pyfloat) : bool :=
  match x, y with
  | NaN, _ | _, NaN => false
  | NegInf, _ => true
  | _, PosInf => true
  | Fin a, Fin b => Qle_bool a b
  | Fin a, NegZero => Qle_bool a 0
  | NegZero, Fin b => Qle_bool 0 b
  | NegZero, NegZero => true
  | _, NegInf => false
  | PosInf, _ => false
  end.

(** [x >= y] *)
Definition fge (x y : pyfloat) : bool := fle y x.

(** [x < y]; again false as soon as a NaN is involved. *)
Definition flt (x y : pyfloat) : bool :=
  match x, y with
  | NaN, _ | _, NaN => false
  | _, _ => negb (fle y x)
  end.

(** Integer literals of the source, such as [3] and [-1]. *)
Definition lit (z : Z) : pyfloat := Fin (inject_Z z).

(** Decimal literals: [dec 2999999 6] is [2.999999]. *)
Definition dec (digits : Z) (places : nat) : pyfloat :=
  Fin (Qmake digits (Pos.pow 10 (Pos.of_nat places))).

(** ** The colour classifier (Python, lines 68-94) *)

Definition get_color (change_pct : option pyfloat) : string :=
  match change_pct with
  | None => "#9E9E9E"
  | Some change_pct =>
      if fge change_pct (lit 3) then "#00873E"
      else if fge change_pct (lit 1) then "#4CAF50"
      else if fge change_pct (lit 0) then "#C8E6C9"
      else if fge change_pct (lit (-1)) then "#FFCDD2"
      else if fge change_pct (lit (-3)) then "#F44336"
      else "#B71C1C"
  end.

Definition get_text_color (change_pct : option pyfloat) : string :=
  match change_pct with
  | None => "#FFFFFF"
  | Some change_pct =>
      if fge change_pct (lit 3) || fle change_pct (lit (-3)) then "#FFFFFF"
      else if fge change_pct (lit 1) || fle change_pct (lit (-1)) then "#FFFFFF"
      else "#333333"
  end.

(** The pair the specification calls [classify]. *)
Definition classify (change_pct : option pyfloat) : string * string :=
  (get_color change_pct, get_text_color change_pct).

(** Names of the colours, after the legend of the page and the table of
    the specification. *)
Definition neutral_gray : string := "#9E9E9E".
Definition dark_green : string := "#00873E".
Definition green : string := "#4CAF50".
Definition pale_green : string := "#C8E6C9".
Definition pale_red : string := "#FFCDD2".
Definition red : string := "#F44336".
Definition dark_red : string := "#B71C1C".
Definition white : string := "#FFFFFF".
Definition dark_gray : string := "#333333".

(** Position of a background colour on the scale from most negative to
    most positive bucket (the order of the legend). *)
Definition positivity (color : string) : nat :=
  if String.eqb color dark_red then 0
  else if String.eqb color red then 1
  else if String.eqb color pale_red then 2
  else if String.eqb color pale_green then 3
  else if String.eqb color green then 4
  else if String.eqb color dark_green then 5
  else 6.

(** ** Values of the embedded script *)

(** A [change_pct] or [price] field of [stockData] is [null] or a number. *)
Inductive jsval : Type :=
| JNull
| JNum (x : pyfloat).

(** [json.dumps] writes [None] as [null] and a float as a number literal
    ([NaN], [Infinity] and [-Infinity] for the special values), which the
    script reads back as the same binary64 value. *)
Definition to_js (v : option pyfloat) : jsval :=
  match v with
  | None => JNull
  | Some x => JNum x
  end.

(** ToNumber: [null] becomes [0] in a numeric context. *)
Definition to_number (v : jsval) : pyfloat :=
  match v with
  | JNull => lit 0
  | JNum x => x
  end.

(** [v === null] *)
Definition is_null (v : jsval) : bool :=
  match v with JNull => true | JNum _ => false end.

(** [v >= n] and [v <= n] with a numeric literal on the right. *)
Definition js_ge (v : jsval) (n : pyfloat) : bool := fge (to_number v) n.
Definition js_le (v : jsval) (n : pyfloat) : bool := fle (to_number v) n.

(** ** The classifier of the embedded script (lines 325-340) *)

Definition getColor (pct : jsval) : string :=
  if is_null pct then "#9E9E9E"
  else if js_ge pct (lit 3) then "#00873E"
  else if js_ge pct (lit 1) then "#4CAF50"
  else if js_ge pct (lit 0) then "#C8E6C9"
  else if js_ge pct (lit (-1)) then "#FFCDD2"
  else if js_ge pct (lit (-3)) then "#F44336"
  else "#B71C1C".

Definition getTextColor (pct : jsval) : string :=
  if is_null pct then "#FFFFFF"
  else if js_ge pct (lit 3) || js_le pct (lit (-3)) then "#FFFFFF"
  else if js_ge pct (lit 1) || js_le pct (lit (-1)) then "#FFFFFF"
  else "#333333".

(** ** Rounding to binary64 *)

(** The integer part of the binary logarithm of [n / d]. *)
Definition log2_ratio (n d : positive) : Z :=
  let k := (Z.log2 (Z.pos n) - Z.log2 (Z.pos d))%Z in
  if (0 <=? k)%Z then
    if (Z.pos d * 2 ^ k <=? Z.pos n)%Z then k else (k - 1)%Z
  else
    if (Z.pos d <=? Z.pos n * 2 ^ (- k))%Z then k else (k - 1)%Z.

(** The integer nearest to [N / D], the even one of two nearest. *)
Definition round_half_even (N D : Z) : Z :=
  let m := (N / D)%Z in
  match (2 * (N mod D) ?= D)%Z with
  | Lt => m
  | Gt => (m + 1)%Z
  | Eq => if Z.even m then m else (m + 1)%Z
  end.

(** The binary64 value nearest to [n / d]: 53 significant bits, the
    last place not below [2^-1074], an infinity from [2^1024] on. *)
Definition round_pos (n d : positive) : pyfloat :=
  let e := Z.max (log2_ratio n d - 52) (-1074) in
  let m := if (0 <=? e)%Z
           then round_half_even (Z.pos n) (Z.pos d * 2 ^ e)
           else round_half_even (Z.pos n * 2 ^ (- e)) (Z.pos d) in
  if ((971 <? e) || ((e =? 971) && (2 ^ 53 <=? m)))%Z then PosInf
  else if (0 <=? e)%Z then Fin (Qred (inject_Z (m * 2 ^ e)))
       else Fin (Qred (Qmake m (Z.to_pos (2 ^ (- e))))).

(** [-x] *)
Definition fneg (x : pyfloat) : pyfloat :=
  match x with
  | Fin q => if Qeq_bool q 0 then NegZero else Fin (- q)
  | NegZero => Fin 0
  | PosInf => NegInf
  | NegInf => PosInf
  | NaN => NaN
  end.

(** The binary64 value nearest to a rational; finite results are kept
    in lowest terms, so that equal values have equal representations. *)
Definition round64 (q : Q) : pyfloat :=
  match Qnum q with
  | Z0 => Fin 0
  | Zpos n => round_pos n (Qden q)
  | Zneg n => fneg (round_pos n (Qden q))
  end.

(** ** Arithmetic on floating-point values

    The special cases follow IEEE 754, which numpy applies to float64
    scalars without raising: a finite nonzero value divided by a zero is
    an infinity, [0/0] and [inf - inf] are NaN, and a zero result keeps
    a sign. *)

Definition is_zero (x : pyfloat) : bool :=
  match x with
  | Fin q => Qeq_bool q 0
  | NegZero => true
  | _ => false
  end.

Definition is_inf (x : pyfloat) : bool :=
  match x with PosInf | NegInf => true | _ => false end.

(** The sign bit. *)
Definition negative (x : pyfloat) : bool :=
  match x with
  | Fin q => (Qnum q <? 0)%Z
  | NegZero | NegInf => true
  | PosInf | NaN => false
  end.

Definition finite_value (x : pyfloat) : Q :=
  match x with Fin q => q | _ => 0%Q end.

(** A magnitude with the sign bit [s]. *)
Definition signed (s : bool) (magnitude : pyfloat) : pyfloat :=
  if s then fneg magnitude else magnitude.

(** The smallest positive binary64 value, [2^-1074]. *)
Definition min_subnormal : Q := Qmake 1 (2 ^ 1074).

(** [x - y].  The difference of two distinct binary64 values is a
    multiple of [2^-1074] and never rounds to zero; the same is kept for
    all rationals, so that the sign of a difference is the order of its
    operands. *)
Definition fsub (x y : pyfloat) : pyfloat :=
  if is_nan x || is_nan y then NaN
  else match x, y with
       | PosInf, PosInf | NegInf, NegInf => NaN
       | PosInf, _ | _, NegInf => PosInf
       | NegInf, _ | _, PosInf => NegInf
       | _, _ =>
           let d := (finite_value x - finite_value y)%Q in
           if Qeq_bool d 0 then
             (if negative x && negb (negative y) then NegZero else Fin 0)
           else if is_zero (round64 d) then
             signed (Qnum d <? 0)%Z (Fin min_subnormal)
           else round64 d
       end.

(** [x * y] *)
Definition fmul (x y : pyfloat) : pyfloat :=
  let s := xorb (negative x) (negative y) in
  if is_nan x || is_nan y then NaN
  else if is_inf x || is_inf y then
    (if is_zero x || is_zero y then NaN else signed s PosInf)
  else signed s (round64 (Qabs (finite_value x * finite_value y))).

(** [x / y] *)
Definition fdiv (x y : pyfloat) : pyfloat :=
  let s := xorb (negative x) (negative y) in
  if is_nan x || is_nan y then NaN
  else if is_inf x then (if is_inf y then NaN else signed s PosInf)
  else if is_inf y then signed s (Fin 0)
  else if is_zero y then (if is_zero x then NaN else signed s PosInf)
  else signed s (round64 (Qabs (finite_value x / finite_value y))).

(** ** Binary64 values as the machine has them

    Rocq's primitive floats are the binary64 values with the IEEE 754
    operations, rounding to nearest, ties to even.  [of_float] reads one
    as a [pyfloat]; it serves to compare the operations above with the
    operations of the machine on sample operands. *)

Definition of_float (f : float) : pyfloat :=
  match Prim2SF f with
  | S754_zero false => Fin 0
  | S754_zero true => NegZero
  | S754_infinity false => PosInf
  | S754_infinity true => NegInf
  | S754_nan => NaN
  | S754_finite s m e =>
      let mag := if (0 <=? e)%Z then inject_Z (Z.pos m * 2 ^ e)
                 else Qmake (Z.pos m) (Z.to_pos (2 ^ (- e))) in
      Fin (Qred (if s then Qopp mag else mag))
  end.

(** The same value, finite values being in lowest terms. *)
Definition same_value (x y : pyfloat) : bool :=
  match x, y with
  | Fin a, Fin b => Z.eqb (Qnum a) (Qnum b) && Pos.eqb (Qden a) (Qden b)
  | NegZero, NegZero | PosInf, PosInf | NegInf, NegInf | NaN, NaN => true
  | _, _ => false
  end.

Definition agrees (op : pyfloat -> pyfloat -> pyfloat)
  (machine_op : float -> float -> float) (x y : float) : bool :=
  same_value (op (of_float x) (of_float y)) (of_float (machine_op x y)).

(** Sample operands: zeros, small integers, prices, values with long
    binary expansions ([18.7], [19.261], [0.1], [0.3]), the
    neighbourhood of [2^53], values near the ends of the range ([1e308],
    the largest value, the smallest normal and subnormal ones), the
    infinities and NaN. *)
Definition sample_floats : list float :=
  [ 0%float; (-0)%float; 1%float; (-1)%float; 3%float; 100%float;
    105%float; 107%float; 0.5%float;
    0x1.2b33333333333p+4%float;      (* 18.7 *)
    0x1.342d0e5604189p+4%float;      (* 19.261 *)
    0x1.999999999999ap-4%float;      (* 0.1 *)
    0x1.3333333333333p-2%float;      (* 0.3 *)
    0x1p+53%float; 0x1.0000000000001p+53%float;
    0x1.1ccf385ebc8a0p+1023%float;   (* 1e308 *)
    (-0x1.1ccf385ebc8a0p+1023)%float;
    0x1.fffffffffffffp+1023%float;   (* the largest finite value *)
    0x1p-1022%float;                 (* the smallest normal value *)
    0x0.0000000000001p-1022%float;   (* the smallest positive value *)
    (-0x0.0000000000001p-1022)%float;
    infinity; neg_infinity; nan ].

Definition all_pairs (test : float -> float -> bool) : bool :=
  forallb (fun x => forallb (test x) sample_floats) sample_floats.

(** ** Exceptions *)

Inductive exn : Type :=
| KeyError (key : string)
| TypeError
| IndexError.

Inductive pyresult (A : Type) : Type :=
| Ok (a : A)
| Raise (e : exn).

Arguments Ok {A} a.
Arguments Raise {A} e.

Definition bind {A B : Type} (m : pyresult A) (k : A -> pyresult B)
  : pyresult B :=
  match m with
  | Ok a => k a
  | Raise e => Raise e
  end.

Notation "x <- m ;; k" := (bind m (fun x => k))
  (at level 61, m at next level, right associativity).

(** [try: body / except Exception: handler] *)
Definition try_except {A : Type} (body : pyresult A) (handler : A) : A :=
  match body with
  | Ok a => a
  | Raise _ => handler
  end.

(** ** What the provider returns

    [yf.download(..., group_by="ticker")] returns a table whose columns
    are grouped by ticker, each group holding the field columns ([Open],
    [Close], ...); for a single ticker the field columns sit at the top.
    A column is a series of floats in which NaN marks a missing entry. *)

Inductive pdobj : Type :=
| Series (values : list pyfloat)
| DataFrame (columns : list (string * pdobj)).

Fixpoint lookup {A : Type} (key : string) (d : list (string * A)) : option A :=
  match d with
  | [] => None
  | (k, v) :: d' => if String.eqb k key then Some v else lookup key d'
  end.

(** [obj[key]] with a string label. *)
Definition getitem (obj : pdobj) (key : string) : pyresult pdobj :=
  match obj with
  | Series _ => Raise (KeyError key)
  | DataFrame columns =>
      match lookup key columns with
      | Some v => Ok v
      | None => Raise (KeyError key)
      end
  end.

(** [column.dropna()]: the entries that are not missing.  A table where a
    column is expected is the malformed structure of the specification:
    the conversions [float(...)] of the resolver reject its rows, which is
    modelled by raising here. *)
Definition dropna (column : pdobj) : pyresult (list pyfloat) :=
  match column with
  | Series values => Ok (filter (fun x => negb (is_nan x)) values)
  | DataFrame _ => Raise TypeError
  end.

(** [closes.iloc[i]]; a negative position counts from the end. *)
Definition iloc (closes : list pyfloat) (i : Z) : pyresult pyfloat :=
  let n := Z.of_nat (List.length closes) in
  let j := (if i <? 0 then n + i else i)%Z in
  if ((j <? 0) || (n <=? j))%Z then Raise IndexError
  else match nth_error closes (Z.to_nat j) with
       | Some x => Ok x
       | None => Raise IndexError
       end.

(** ** The roster and the price resolver (lines 19-65) *)

Record StockRef : Type := mkStock {
  code : string;
  name : string;
  sector : string
}.

(** A result is [{**stock, "price": ..., "change_pct": ...}]. *)
Record StockResult : Type := mkResult {
  stock : StockRef;
  price : option pyfloat;
  change_pct : option pyfloat
}.

Definition absent (s : StockRef) : StockResult :=
  {| stock := s; price := None; change_pct := None |}.

(** Lines 45-50: the closes of one stock, missing entries dropped. *)
Definition valid_closes (tickers : list string) (data : pdobj) (s : StockRef)
  : pyresult (list pyfloat) :=
  ticker_data <- (if Nat.eqb (List.length tickers) 1 then Ok data
                  else getitem data (code s)) ;;
  column <- getitem ticker_data "Close" ;;
  dropna column.

(** The body of the [try] block for one stock. *)
Definition resolve (tickers : list string) (data : pdobj) (s : StockRef)
  : pyresult StockResult :=
  closes <- valid_closes tickers data s ;;
  if Nat.leb 2 (List.length closes) then
    prev_close <- iloc closes (-2) ;;
    last_close <- iloc closes (-1) ;;
    let pct := fmul (fdiv (fsub last_close prev_close) prev_close) (lit 100) in
    Ok {| stock := s; price := Some last_close; change_pct := Some pct |}
  else
    Ok (absent s).

(** One iteration of the loop: the [try] block with its handler. *)
Definition resolve_or_absent (tickers : list string) (data : pdobj)
  (s : StockRef) : StockResult :=
  try_except (resolve tickers data s) (absent s).

(** [data] is the table returned by the one batched [yf.download] call. *)
Definition fetch_price_data (stocks : list StockRef) (data : pdobj)
  : list StockResult :=
  let tickers := map code stocks in
  fold_left
    (fun results s => (results ++ [resolve_or_absent tickers data s])%list)
    stocks [].

(** A symbol is bad when its lookup raises or leaves fewer than two
    valid closes. *)
Definition bad_symbol (tickers : list string) (data : pdobj) (s : StockRef)
  : bool :=
  match valid_closes tickers data s with
  | Raise _ => true
  | Ok closes => Nat.ltb (List.length closes) 2
  end.

(** Both fields present or both absent. *)
Definition consistent (r : StockResult) : bool :=
  match price r, change_pct r with
  | Some _, Some _ | None, None => true
  | _, _ => false
  end.

(** ** Python built-ins used by the renderer *)

(** [sorted(l, key=key)] on string keys: a stable sort that compares keys
    with [<] (code-point order).  Insertion from the right keeps equal
    keys in their original order. *)
Section PySorted.
Context {A : Type} (key : A -> string).

Fixpoint insert_sorted (x : A) (l : list A) : list A :=
  match l with
  | [] => [x]
  | y :: l' =>
      if (key y <? key x) then y :: insert_sorted x l'
      else x :: y :: l'
  end.

Definition sorted (l : list A) : list A := fold_right insert_sorted [] l.
End PySorted.

(** [min(...)] over strings: the first smallest item.  On an empty
    sequence Python raises ValueError; a sector of the grouping always has
    a member, so the empty case is not reached. *)
Definition py_min (l : list string) : string :=
  match l with
  | [] => ""
  | c :: cs => fold_left (fun m c' => if (c' <? m) then c' else m) cs c
  end.

(** [s.replace(".T", "")] *)
Fixpoint remove_dot_T (s : string) : string :=
  match s with
  | String "." (String "T" rest) => remove_dot_T rest
  | String c rest => String c (remove_dot_T rest)
  | EmptyString => EmptyString
  end.

(** A dict with string keys, in insertion order. *)
Definition dict (A : Type) : Type := list (string * A).

(** [if key not in d: d[key] = []] followed by [d[key].append(v)]. *)
Fixpoint group_append {A : Type} (key : string) (v : A) (d : dict (list A))
  : dict (list A) :=
  match d with
  | [] => [(key, [v])]
  | (k, vs) :: d' =>
      if String.eqb k key then (k, (vs ++ [v])%list) :: d'
      else (k, vs) :: group_append key v d'
  end.

(** [d[key]] for a key of the dict. *)
Definition members {A : Type} (d : dict (list A)) (key : string) : list A :=
  match lookup key d with
  | Some vs => vs
  | None => []
  end.

(** ** Grouping and ordering of the server-rendered view (lines 99-114) *)

Definition group_by_sector (results : list StockResult)
  : dict (list StockResult) :=
  fold_left (fun sectors r => group_append (sector (stock r)) r sectors)
            results [].

Definition min_code (rs : list StockResult) : string :=
  py_min (map (fun r => code (stock r)) rs).

Definition sector_order (sectors : dict (list StockResult)) : list string :=
  sorted (fun s => min_code (members sectors s)) (map fst sectors).

(** The sectors in display order, each with its results in tile order. *)
Definition server_view (results : list StockResult)
  : list (string * list StockResult) :=
  let sectors := group_by_sector results in
  map (fun s => (s, sorted (fun x => code (stock x)) (members sectors s)))
      (sector_order sectors).

(** ** The dataset embedded in the page (lines 134-140) *)

Module Js.
Record stock : Type := mk {
  code : string;
  name : string;
  sector : string;
  change_pct : jsval;
  price : jsval
}.
End Js.

Definition json_record (r : StockResult) : Js.stock :=
  {| Js.code := remove_dot_T (code (stock r));
     Js.name := name (stock r);
     Js.sector := sector (stock r);
     Js.change_pct := to_js (change_pct r);
     Js.price := to_js (price r) |}.

Definition json_data (results : list StockResult) : list Js.stock :=
  map json_record results.

(** ** JavaScript built-ins used by the script *)

(** [a || b]: [a] when it is truthy.  [null], [0] and NaN are falsy. *)
Definition truthy (v : jsval) : bool :=
  match v with
  | JNull => false
  | JNum (Fin q) => negb (Qeq_bool q 0)
  | JNum NegZero => false
  | JNum NaN => false
  | JNum _ => true
  end.

Definition js_or (a b : jsval) : jsval := if truthy a then a else b.

(** [a - b] *)
Definition js_sub (a b : jsval) : pyfloat := fsub (to_number a) (to_number b).

(** How [Array.prototype.sort] reads the number a comparator returns:
    negative, positive, or zero; NaN counts as zero. *)
Definition cmp_sign (x : pyfloat) : comparison :=
  match x with
  | Fin q => (q ?= 0)%Q
  | NegZero => Eq
  | PosInf => Gt
  | NegInf => Lt
  | NaN => Eq
  end.

(** [arr.sort(cmp)]: a stable sort, modelled as insertion from the right.
    An element moves behind another only when the comparator is positive.
    For a consistent comparator every stable sort returns this list. *)
Section ArraySort.
Context {A : Type} (cmp : A -> A -> pyfloat).

Fixpoint array_insert (x : A) (l : list A) : list A :=
  match l with
  | [] => [x]
  | y :: l' =>
      match cmp_sign (cmp x y) with
      | Gt => y :: array_insert x l'
      | _ => x :: y :: l'
      end
  end.

Definition array_sort (l : list A) : list A := fold_right array_insert [] l.
End ArraySort.

(** [parseInt(s)]: leading white space, an optional sign, an optional
    [0x] prefix, then the longest run of digits; NaN when there is none.
    The result is the binary64 value nearest to the integer read, with
    its sign.  White space is the ASCII white space. *)
Definition is_space (c : ascii) : bool :=
  let n := nat_of_ascii c in
  Nat.eqb n 32 || (Nat.leb 9 n && Nat.leb n 13).

Fixpoint skip_spaces (s : string) : string :=
  match s with
  | String c s' => if is_space c then skip_spaces s' else s
  | EmptyString => EmptyString
  end.

Definition digit_value (radix : Z) (c : ascii) : option Z :=
  let n := Z.of_nat (nat_of_ascii c) in
  let v := (if (48 <=? n) && (n <=? 57) then Some (n - 48)
            else if (97 <=? n) && (n <=? 122) then Some (n - 87)
            else if (65 <=? n) && (n <=? 90) then Some (n - 55)
            else None)%Z in
  match v with
  | Some d => if (d <? radix)%Z then Some d else None
  | None => None
  end.

Fixpoint parse_digits (radix : Z) (s : string) (acc : option Z) : option Z :=
  match s with
  | String c s' =>
      match digit_value radix c with
      | Some d =>
          let a := match acc with Some a => a | None => 0%Z end in
          parse_digits radix s' (Some (radix * a + d)%Z)
      | None => acc
      end
  | EmptyString => acc
  end.

Definition parseInt (s : string) : pyfloat :=
  let s := skip_spaces s in
  let '(minus, s) :=
    match s with
    | String "-" s' => (true, s')
    | String "+" s' => (false, s')
    | _ => (false, s)
    end in
  let '(radix, s) :=
    match s with
    | String "0" (String "x" s') | String "0" (String "X" s') => (16%Z, s')
    | _ => (10%Z, s)
    end in
  match parse_digits radix s None with
  | Some n => signed minus (round64 (inject_Z n))
  | None => NaN
  end.

(** [Math.min(...xs)]: [Infinity] for no argument, NaN as soon as one
    argument is NaN; the negative zero counts as smaller than the
    positive one. *)
Definition Math_min (xs : list pyfloat) : pyfloat :=
  fold_left
    (fun m x =>
       match m, x with
       | NaN, _ | _, NaN => NaN
       | _, _ =>
           if flt x m || (is_zero x && is_zero m && negative x) then x
           else m
       end)
    xs PosInf.

(** ** Rendering

    The conversions of a number to text belong to the two languages and
    are taken as parameters, as is the locale-dependent string comparison
    of the browser. *)

Definition dq : string := String (ascii_of_nat 34) EmptyString.
Definition nl : string := String (ascii_of_nat 10) EmptyString.

(** [s] between double quotes. *)
Definition quoted (s : string) : string := dq ++ s ++ dq.

Section Rendering.
(** Python: [f'{x:+.2f}'], [f'{x:,.0f}'] and [str(x)]. *)
Variable format_signed_2f : pyfloat -> string.
Variable format_grouped_0f : pyfloat -> string.
Variable str_float : pyfloat -> string.
(** JavaScript: [x.toFixed(2)],
    [x.toLocaleString('ja-JP', {maximumFractionDigits: 0})] and
    [a.localeCompare(b)]. *)
Variable toFixed2 : pyfloat -> string.
Variable toLocaleString : pyfloat -> string.
Variable localeCompare : string -> string -> pyfloat.

(** *** Server-side tiles (lines 115-131) *)

Definition change_str (r : StockResult) : string :=
  match change_pct r with
  | Some x => format_signed_2f x ++ "%"
  | None => "N/A"
  end.

Definition price_str (r : StockResult) : string :=
  match price r with
  | Some p => "¥" ++ format_grouped_0f p
  | None => ""
  end.

Definition data_change (r : StockResult) : string :=
  match change_pct r with
  | Some x => str_float x
  | None => "0"
  end.

Definition tile (r : StockResult) : string :=
  let bg := get_color (change_pct r) in
  let fg := get_text_color (change_pct r) in
  let code_short := remove_dot_T (code (stock r)) in
  "<div class=" ++ quoted "tile"
    ++ " data-sector=" ++ quoted (sector (stock r)) ++ " "
    ++ "data-code=" ++ quoted code_short ++ " "
    ++ "data-change=" ++ quoted (data_change r) ++ " "
    ++ "style=" ++ quoted ("background-color:" ++ bg ++ ";color:" ++ fg)
    ++ ">"
    ++ "<div class=" ++ quoted "tile-name" ++ ">" ++ name (stock r)
    ++ "</div>"
    ++ "<div class=" ++ quoted "tile-code" ++ ">" ++ code_short ++ "</div>"
    ++ "<div class=" ++ quoted "tile-change" ++ ">" ++ change_str r
    ++ "</div>"
    ++ "<div class=" ++ quoted "tile-price" ++ ">" ++ price_str r
    ++ "</div>"
    ++ "</div>".

(** [tiles_by_sector], in [sector_order]. *)
Definition tiles_by_sector (results : list StockResult)
  : list (string * list string) :=
  map (fun '(s, rs) => (s, map tile rs)) (server_view results).

(** *** Sector blocks (lines 142-153)

    The rest of the document (style sheet, legend, buttons, script) is
    constant text around [sector_blocks] and [json_data]. *)

Definition sector_block (s : string) (tiles : list string) : string :=
  let tiles_html := String.concat nl tiles in
  nl ++ "        <div class=" ++ quoted "sector-group"
     ++ " data-sector=" ++ quoted s ++ ">" ++ nl
     ++ "            <h2 class=" ++ quoted "sector-title" ++ ">" ++ s
     ++ "</h2>" ++ nl
     ++ "            <div class=" ++ quoted "grid" ++ ">" ++ nl
     ++ "                " ++ tiles_html ++ nl
     ++ "            </div>" ++ nl
     ++ "        </div>" ++ nl
     ++ "        ".

Definition sector_blocks (results : list StockResult) : string :=
  fold_left (fun blocks '(s, tiles) => blocks ++ sector_block s tiles)
            (tiles_by_sector results) "".

(** *** The script: [makeTile] (lines 342-353) *)

Definition makeTile_change (s : Js.stock) : string :=
  if negb (is_null (Js.change_pct s)) then
    (if js_ge (Js.change_pct s) (lit 0) then "+" else "")
      ++ toFixed2 (to_number (Js.change_pct s)) ++ "%"
  else "N/A".

Definition makeTile_price (s : Js.stock) : string :=
  if negb (is_null (Js.price s)) then
    "¥" ++ toLocaleString (to_number (Js.price s))
  else "".

Definition makeTile (s : Js.stock) : string :=
  let bg := getColor (Js.change_pct s) in
  let fg := getTextColor (Js.change_pct s) in
  let change := makeTile_change s in
  let price := makeTile_price s in
  "<div class=" ++ quoted "tile" ++ " style="
    ++ quoted ("background-color:" ++ bg ++ ";color:" ++ fg) ++ ">"
    ++ "<div class=" ++ quoted "tile-name" ++ ">" ++ Js.name s ++ "</div>"
    ++ "<div class=" ++ quoted "tile-code" ++ ">" ++ Js.code s ++ "</div>"
    ++ "<div class=" ++ quoted "tile-change" ++ ">" ++ change ++ "</div>"
    ++ "<div class=" ++ quoted "tile-price" ++ ">" ++ price ++ "</div>"
    ++ "</div>".

(** *** The script: [sortBy] (lines 355-397)

    [groups] is an object used as a map from sector to array; its keys
    are taken in insertion order (sector names are not integer-like and
    do not name a property of [Object.prototype]). *)

Definition sector_groups (stockData : list Js.stock)
  : dict (list Js.stock) :=
  fold_left (fun groups s => group_append (Js.sector s) s groups)
            stockData [].

Definition min_parsed_code (items : list Js.stock) : pyfloat :=
  Math_min (map (fun s => parseInt (Js.code s)) items).

Definition sectorOrder (groups : dict (list Js.stock)) : list string :=
  array_sort
    (fun a b =>
       let minA := min_parsed_code (members groups a) in
       let minB := min_parsed_code (members groups b) in
       fsub minA minB)
    (map fst groups).

(** The sectors in display order, each with its items in tile order. *)
Definition sector_mode (stockData : list Js.stock)
  : list (string * list Js.stock) :=
  let groups := sector_groups stockData in
  map (fun s =>
         (s, array_sort (fun a b => localeCompare (Js.code a) (Js.code b))
                        (members groups s)))
      (sectorOrder groups).

Definition change_desc (stockData : list Js.stock) : list Js.stock :=
  array_sort
    (fun a b => js_sub (js_or (Js.change_pct b) (JNum (lit 0)))
                       (js_or (Js.change_pct a) (JNum (lit 0))))
    stockData.

Definition change_asc (stockData : list Js.stock) : list Js.stock :=
  array_sort
    (fun a b => js_sub (js_or (Js.change_pct a) (JNum (lit 0)))
                       (js_or (Js.change_pct b) (JNum (lit 0))))
    stockData.

Definition code_order (stockData : list Js.stock) : list Js.stock :=
  array_sort (fun a b => localeCompare (Js.code a) (Js.code b)) stockData.

(** The new content of the page for a view mode (the marking of the
    active button is left out). *)
Definition sortBy (mode : string) (stockData : list Js.stock) : string :=
  if String.eqb mode "sector" then
    fold_left
      (fun html '(s, items) =>
         html ++ "<div class=" ++ quoted "sector-group" ++ ">"
              ++ "<h2 class=" ++ quoted "sector-title" ++ ">" ++ s
              ++ "</h2><div class=" ++ quoted "grid" ++ ">"
              ++ fold_left (fun h x => h ++ makeTile x) items ""
              ++ "</div></div>")
      (sector_mode stockData) ""
  else
    let sorted :=
      if String.eqb mode "change_desc" then change_desc stockData
      else if String.eqb mode "change_asc" then change_asc stockData
      else code_order stockData in
    fold_left (fun html s => html ++ makeTile s) sorted
              ("<div class=" ++ quoted "flat-grid" ++ ">")
      ++ "</div>".
End Rendering.

(** ** The change-ordered views with absent read as zero *)

(** The record with an absent [change_pct] replaced by [0]. *)
Definition absent_as_zero (s : Js.stock) : Js.stock :=
  if is_null (Js.change_pct s) then
    {| Js.code := Js.code s; Js.name := Js.name s; Js.sector := Js.sector s;
       Js.change_pct := JNum (lit 0); Js.price := Js.price s |}
  else s.

(** The comparators of the two change-ordered modes. *)
Definition compare_desc (a b : Js.stock) : pyfloat :=
  js_sub (js_or (Js.change_pct b) (JNum (lit 0)))
         (js_or (Js.change_pct a) (JNum (lit 0))).

Definition compare_asc (a b : Js.stock) : pyfloat :=
  js_sub (js_or (Js.change_pct a) (JNum (lit 0)))
         (js_or (Js.change_pct b) (JNum (lit 0))).

(** ** Ascending keys *)

(** The order [sorted] leaves between neighbours: keys ascend in
    code-point order. *)
Definition ascending {A : Type} (key : A -> string) (a b : A) : Prop :=
  (key a <=? key b) = true.

(** ** Line 54 on binary64

    The same expression on the primitive binary64 numbers of the kernel,
    to compare the result of the model with that of the machine on given
    closes. *)
Definition binary64_change (prev_close last_close : PrimFloat.float)
  : PrimFloat.float :=
  PrimFloat.mul
    (PrimFloat.div (PrimFloat.sub last_close prev_close) prev_close)
    100%float.

(** ** The summary of [main] (line 412) *)

(** [sum(1 for r in results if r["change_pct"] is not None)] *)
Definition success (results : list StockResult) : nat :=
  list_sum
    (map (fun _ => 1)
         (filter (fun r => match change_pct r with
                           | Some _ => true
                           | None => false
                           end)
                 results)).

(** ** The sort key of the change-ordered modes *)

(** [(s.change_pct || 0)] *)
Definition change_key (s : Js.stock) : pyfloat :=
  to_number (js_or (Js.change_pct s) (JNum (lit 0))).

(** [x == y] on numbers; false as soon as a NaN is involved. *)
Definition feq (x y : pyfloat) : bool := fle x y && fle y x.

(** ** Codes of the form digits, then [.T] *)

Definition is_digit (c : ascii) : bool :=
  let n := nat_of_ascii c in Nat.leb 48 n && Nat.leb n 57.

Fixpoint all_digits (s : string) : bool :=
  match s with
  | EmptyString => true
  | String c s' => is_digit c && all_digits s'
  end.

(** [digit_code n s]: [s] is [n] decimal digits followed by [.T], as
    the four-digit codes ["7203.T"] of the index are. *)
Fixpoint digit_code (n : nat) (s : string) : bool :=
  match n with
  | 0 => String.eqb s ".T"
  | S n' =>
      match s with
      | String c s' => is_digit c && digit_code n' s'
      | EmptyString => false
      end
  end.

(** The number a run of digits denotes, continuing from [a]. *)
Fixpoint digits_value (d : string) (a : Z) : Z :=
  match d with
  | EmptyString => a
  | String c d' => digits_value d' (10 * a + (Z.of_nat (nat_of_ascii c) - 48))
  end.

(** A comparison by code points with the result convention of
    [localeCompare]; on digit strings the collation of a browser gives
    the same sign. *)
Definition code_point_compare (a b : string) : pyfloat :=
  match (a ?= b) with
  | Lt => lit (-1)
  | Eq => lit 0
  | Gt => lit 1
  end.

(** ** Sector names as keys of a script object

    [groups] of [sortBy] is a plain object.  A key that names a property
    inherited from [Object.prototype] is found before it is ever set, and
    keys that look like array indices are listed first by [Object.keys];
    [sector_groups] describes [groups] for the other keys. *)
Definition inherited_names : list string :=
  ["constructor"; "hasOwnProperty"; "isPrototypeOf"; "propertyIsEnumerable";
   "toLocaleString"; "toString"; "valueOf"; "__proto__";
   "__defineGetter__"; "__defineSetter__"; "__lookupGetter__";
   "__lookupSetter__"].

Definition plain_key (s : string) : bool :=
  negb (existsb (String.eqb s) inherited_names)
  && match s with
     | String c _ => negb (is_digit c)
     | EmptyString => true
     end.

(** ** Sample inputs *)

Definition toyota : StockRef := mkStock "7203.T" "Toyota" "Transport".
Definition sony : StockRef := mkStock "6758.T" "Sony" "Electric".
Definition honda : StockRef := mkStock "7267.T" "Honda" "Transport".
Definition hitachi : StockRef := mkStock "6501.T" "Hitachi" "Electric".

(** A one-ticker table: the field columns sit at the top. *)
Definition flat_table : pdobj :=
  DataFrame [("Open", Series [lit 99; lit 100; lit 101]);
             ("Close", Series [lit 100; lit 100; lit 105])].

(** A table grouped by ticker, with a missing entry for Toyota, a single
    valid close for Hitachi and no group for Sony. *)
Definition grouped_table : pdobj :=
  DataFrame
    [("7203.T", DataFrame [("Close", Series [lit 100; NaN; lit 100; lit 105])]);
     ("7267.T", DataFrame [("Close", Series [lit 200; lit 190])]);
     ("6501.T", DataFrame [("Close", Series [NaN; NaN; lit 4000])])].

(** A stand-in for a number-to-text conversion, for inputs on which no
    number is converted. *)
Definition no_number : pyfloat -> string := fun _ => "".

(** Two sectors whose smallest codes have different lengths. *)
Definition mixed_length_results : list StockResult :=
  [absent (mkStock "1001.T" "Alpha" "Fishery");
   absent (mkStock "998.T" "Beta" "Mining")].

(** Two sectors, one of them with a code that ends in a letter. *)
Definition alphanumeric_results : list StockResult :=
  [absent (mkStock "1332.T" "Nissui" "Fishery");
   absent (mkStock "285A.T" "Kioxia" "Electric")].

(** * Properties *)

(** ** The arithmetic against the machine

    On every pair of sample operands the three operations, and the
    expression of line 54, return the value the binary64 operations of
    the machine return: rounding, overflow, underflow, signed zeros,
    infinities and NaN included. *)
Lemma arithmetic_agrees_with_machine :
  all_pairs (agrees fsub PrimFloat.sub) = true /\
  all_pairs (agrees fmul PrimFloat.mul) = true /\
  all_pairs (agrees fdiv PrimFloat.div) = true /\
  all_pairs (agrees (fun l p => fmul (fdiv (fsub l p) p) (lit 100))
                    (fun l p => binary64_change p l)) = true.
Proof.
  split; [| split; [| split]]; vm_cast_no_check (eq_refl true).
Qed.

(** From 100 to 107 the change is [7 + 2^-50], printed
    [7.000000000000001], not [7]; from
    18.7 to 19.261 it is exactly [3], dark green; the difference of
    [1e308] and [-1e308] is an infinity; a positive value over the
    negative zero is the negative infinity. *)
Lemma rounded_changes :
  fmul (fdiv (fsub (lit 107) (lit 100)) (lit 100)) (lit 100)
  = Fin (Qmake 7881299347898369 1125899906842624) /\
  fmul (fdiv (fsub (of_float 0x1.342d0e5604189p+4)
                   (of_float 0x1.2b33333333333p+4))
             (of_float 0x1.2b33333333333p+4)) (lit 100)
  = lit 3 /\
  fsub (of_float 0x1.1ccf385ebc8a0p+1023)
       (of_float (-0x1.1ccf385ebc8a0p+1023)) = PosInf /\
  fdiv (lit 1) NegZero = NegInf.
Proof. vm_compute. repeat split. Qed.

(** From sixteen digits on, two codes can be read as the same number. *)
Lemma parseInt_rounds :
  parseInt "9007199254740993" = parseInt "9007199254740992".
Proof. vm_compute. reflexivity. Qed.

(** ** Comparisons on finite values *)

Lemma Qle_bool_false (a b : Q) : Qle_bool a b = false -> (b < a)%Q.
Proof.
  intros H. apply Qnot_le_lt. intros Hle.
  apply Qle_bool_iff in Hle. congruence.
Qed.

Lemma Qle_bool_true (a b : Q) : Qle_bool a b = true -> (a <= b)%Q.
Proof. apply Qle_bool_iff. Qed.

(** Splits on every comparison of a rational in the goal and records the
    inequality it stands for. *)
Ltac split_comparisons :=
  repeat match goal with
    | |- context [Qle_bool ?a ?b] =>
        let E := fresh "E" in
        destruct (Qle_bool a b) eqn:E;
        [apply Qle_bool_true in E | apply Qle_bool_false in E]
    end.

Ltac finish_comparisons :=
  unfold inject_Z in *; simpl in *;
  try reflexivity; try discriminate; try lia; try lra;
  try (exfalso; lra).

(** ** The classifier *)

Lemma get_color_fin (q : Q) :
  get_color (Some (Fin q)) =
    if Qle_bool 3 q then dark_green
    else if Qle_bool 1 q then green
    else if Qle_bool 0 q then pale_green
    else if Qle_bool (-1) q then pale_red
    else if Qle_bool (-3) q then red
    else dark_red.
Proof. reflexivity. Qed.

Lemma get_text_color_fin (q : Q) :
  get_text_color (Some (Fin q)) =
    if Qle_bool 3 q || Qle_bool q (-3) then white
    else if Qle_bool 1 q || Qle_bool q (-1) then white
    else dark_gray.
Proof. reflexivity. Qed.

(** Monotonicity of the background bucket on finite values. *)
Lemma positivity_monotone_fin (a b : Q) :
  (a <= b)%Q ->
  (positivity (get_color (Some (Fin a)))
   <= positivity (get_color (Some (Fin b))))%nat.
Proof.
  intros Hab. rewrite !get_color_fin.
  split_comparisons; cbv [positivity]; simpl; finish_comparisons.
Qed.

(** X15.  The table of the specification holds at every input except at
    exactly [-1], where the text is white on the pale-red background;
    the negative zero is classified as zero, the infinities fall into
    the outermost buckets and NaN gets the dark-red background with
    dark-gray text. *)
Lemma classify_table (v : option pyfloat) :
  match v with
  | None => classify v = (neutral_gray, white)
  | Some (Fin q) =>
      ((3 <= q)%Q -> classify v = (dark_green, white)) /\
      ((1 <= q)%Q /\ (q < 3)%Q -> classify v = (green, white)) /\
      ((0 <= q)%Q /\ (q < 1)%Q -> classify v = (pale_green, dark_gray)) /\
      ((-1 < q)%Q /\ (q < 0)%Q -> classify v = (pale_red, dark_gray)) /\
      ((q == -1)%Q -> classify v = (pale_red, white)) /\
      ((-3 <= q)%Q /\ (q < -1)%Q -> classify v = (red, white)) /\
      ((q < -3)%Q -> classify v = (dark_red, white))
  | Some NegZero => classify v = (pale_green, dark_gray)
  | Some PosInf => classify v = (dark_green, white)
  | Some NegInf => classify v = (dark_red, white)
  | Some NaN => classify v = (dark_red, dark_gray)
  end.
Proof.
  destruct v as [[q | | | | ] | ]; try reflexivity.
  unfold classify. rewrite get_color_fin, get_text_color_fin.
  repeat split; intros H; split_comparisons; simpl; finish_comparisons.
Qed.

Lemma positivity_monotone (x y : pyfloat) :
  fle x y = true ->
  (positivity (get_color (Some x)) <= positivity (get_color (Some y)))%nat.
Proof.
  destruct x as [a | | | | ], y as [b | | | | ]; intros H;
    try discriminate H;
    try (cbv; lia);
    try (rewrite get_color_fin; split_comparisons; cbv; lia).
  - apply positivity_monotone_fin, Qle_bool_iff, H.
  - change (get_color (Some NegZero)) with (get_color (Some (Fin 0))).
    apply positivity_monotone_fin, Qle_bool_iff, H.
  - change (get_color (Some NegZero)) with (get_color (Some (Fin 0))).
    apply positivity_monotone_fin, Qle_bool_iff, H.
Qed.

(** C1.  Server/client parity: on every value of [change_pct] (a number,
    including the special values, or [None]) the classifier of the
    embedded script, applied to the value as serialised into the page,
    returns the same background and text colour as the Python classifier;
    hence every record of the embedded dataset is classified as its
    server-rendered tile was. *)
Theorem client_server_parity :
  (forall v : option pyfloat,
      (getColor (to_js v), getTextColor (to_js v)) = classify v) /\
  (forall r : StockResult,
      getColor (Js.change_pct (json_record r)) = get_color (change_pct r) /\
      getTextColor (Js.change_pct (json_record r))
        = get_text_color (change_pct r)).
Proof.
  assert (H : forall v, getColor (to_js v) = get_color v
                        /\ getTextColor (to_js v) = get_text_color v).
  { intros [x | ]; split; reflexivity. }
  split.
  - intros v. unfold classify. destruct (H v) as [-> ->]. reflexivity.
  - intros r. apply H.
Qed.

(** C2.  At [change_pct = -1] the classifier returns the pale-red
    background with white text, not the dark-gray text of the row
    [[-1, 0)] of the table; the same background carries dark-gray text
    at [-0.5], so the text colour does not follow from the background. *)
Theorem classify_at_minus_one :
  classify (Some (lit (-1))) = (pale_red, white) /\
  classify (Some (lit (-1))) <> (pale_red, dark_gray) /\
  get_color (Some (dec (-5) 1)) = get_color (Some (lit (-1))) /\
  get_text_color (Some (dec (-5) 1)) = dark_gray /\
  get_text_color (Some (lit (-1))) = white.
Proof. repeat split; try reflexivity. discriminate. Qed.

(** C8.  [get_color] is total with exactly seven outcomes, its bucket
    never moves down when [change_pct] increases, and the bucket changes
    exactly at the thresholds 3, 1, 0, -1 and -3 (the threshold itself
    belonging to the higher bucket). *)
Theorem classifier_total_monotone_exact :
  (forall v : option pyfloat,
      In (get_color v)
         [neutral_gray; dark_red; red; pale_red; pale_green; green;
          dark_green]) /\
  NoDup [neutral_gray; dark_red; red; pale_red; pale_green; green;
         dark_green] /\
  (forall x y : pyfloat,
      fle x y = true ->
      (positivity (get_color (Some x)) <= positivity (get_color (Some y)))%nat) /\
  (forall q : Q,
      (get_color (Some (Fin q)) = dark_green <-> (3 <= q)%Q) /\
      (get_color (Some (Fin q)) = green <-> (1 <= q)%Q /\ (q < 3)%Q) /\
      (get_color (Some (Fin q)) = pale_green <-> (0 <= q)%Q /\ (q < 1)%Q) /\
      (get_color (Some (Fin q)) = pale_red <-> (-1 <= q)%Q /\ (q < 0)%Q) /\
      (get_color (Some (Fin q)) = red <-> (-3 <= q)%Q /\ (q < -1)%Q) /\
      (get_color (Some (Fin q)) = dark_red <-> (q < -3)%Q)) /\
  (get_color (Some (lit 3)) = dark_green /\
   get_color (Some (dec 2999999 6)) = green) /\
  (get_color (Some (lit 1)) = green /\
   get_color (Some (dec 999999 6)) = pale_green) /\
  (get_color (Some (lit 0)) = pale_green /\
   get_color (Some (dec (-1) 6)) = pale_red) /\
  (get_color (Some (lit (-1))) = pale_red /\
   get_color (Some (dec (-1000001) 6)) = red) /\
  (get_color (Some (lit (-3))) = red /\
   get_color (Some (dec (-3000001) 6)) = dark_red).
Proof.
  split; [| split; [| split; [| split]]].
  - intros [[q | | | | ] | ]; try (cbv; tauto).
    rewrite get_color_fin. split_comparisons; cbv; tauto.
  - repeat constructor; cbv; intuition discriminate.
  - apply positivity_monotone.
  - intros q. rewrite get_color_fin.
    repeat split; try intros H;
      revert H; split_comparisons; intros H;
      try discriminate H; finish_comparisons.
  - repeat split; reflexivity.
Qed.

(** The bucket of 0 is not above the bucket of 2. *)
Lemma classifier_monotone_witness :
  (positivity (get_color (Some (lit 0)))
   <= positivity (get_color (Some (lit 2))))%nat.
Proof.
  exact (proj1 (proj2 (proj2 classifier_total_monotone_exact))
           (lit 0) (lit 2) eq_refl).
Defined.

(** ** The price resolver *)

Lemma fold_append_map {A B : Type} (f : A -> B) (l : list A) (acc : list B) :
  fold_left (fun results s => (results ++ [f s])%list) l acc
  = (acc ++ map f l)%list.
Proof.
  revert acc. induction l as [| a l IH]; intros acc; simpl.
  - now rewrite app_nil_r.
  - rewrite IH, <- app_assoc. reflexivity.
Qed.

(** The loop produces one result per stock, in roster order. *)
Lemma fetch_price_data_map (stocks : list StockRef) (data : pdobj) :
  fetch_price_data stocks data
  = map (resolve_or_absent (map code stocks) data) stocks.
Proof. unfold fetch_price_data. now rewrite fold_append_map. Qed.

Lemma iloc_from_end (init : list pyfloat) (prev last : pyfloat) :
  iloc (init ++ [prev; last]) (-2) = Ok prev /\
  iloc (init ++ [prev; last]) (-1) = Ok last.
Proof.
  unfold iloc. rewrite length_app. simpl List.length.
  set (n := List.length init).
  assert (H2 : Z.to_nat (Z.of_nat (n + 2) + -2) = n) by lia.
  assert (H1 : Z.to_nat (Z.of_nat (n + 2) + -1) = S n) by lia.
  change ((-2 <? 0)%Z) with true. change ((-1 <? 0)%Z) with true.
  cbv iota. split.
  - replace ((Z.of_nat (n + 2) + -2 <? 0)%Z) with false
      by (symmetry; apply Z.ltb_ge; lia).
    replace ((Z.of_nat (n + 2) <=? Z.of_nat (n + 2) + -2)%Z) with false
      by (symmetry; apply Z.leb_gt; lia).
    simpl orb. cbv iota. rewrite H2. subst n.
    rewrite nth_error_app2, Nat.sub_diag by lia. reflexivity.
  - replace ((Z.of_nat (n + 2) + -1 <? 0)%Z) with false
      by (symmetry; apply Z.ltb_ge; lia).
    replace ((Z.of_nat (n + 2) <=? Z.of_nat (n + 2) + -1)%Z) with false
      by (symmetry; apply Z.leb_gt; lia).
    simpl orb. cbv iota. rewrite H1. subst n.
    rewrite nth_error_app2 by lia.
    replace (S (List.length init) - List.length init) with 1 by lia.
    reflexivity.
Qed.

(** A list with at least two elements ends in a previous and a last one. *)
Lemma two_last {A : Type} (l : list A) :
  2 <= List.length l -> exists init prev last, l = (init ++ [prev; last])%list.
Proof.
  induction l as [| a [| b [| c l]] IH]; simpl; intros H; try lia.
  - exists [], a, b. reflexivity.
  - destruct IH as (init & prev & last & E); [simpl; lia |].
    exists (a :: init), prev, last. simpl. now rewrite <- E.
Qed.

(** The result for one stock, by cases on its closes. *)
Lemma resolve_or_absent_bad (tickers : list string) (data : pdobj)
  (s : StockRef) :
  bad_symbol tickers data s = true ->
  resolve_or_absent tickers data s = absent s.
Proof.
  unfold bad_symbol, resolve_or_absent, resolve.
  destruct (valid_closes tickers data s) as [closes | e];
    [| reflexivity].
  intros H. apply Nat.ltb_lt in H. unfold bind.
  replace (Nat.leb 2 (List.length closes)) with false; [reflexivity |].
  symmetry. apply Nat.leb_gt. exact H.
Qed.

Lemma resolve_or_absent_two (tickers : list string) (data : pdobj)
  (s : StockRef) (init : list pyfloat) (prev last : pyfloat) :
  valid_closes tickers data s = Ok (init ++ [prev; last])%list ->
  resolve_or_absent tickers data s
  = {| stock := s; price := Some last;
       change_pct := Some (fmul (fdiv (fsub last prev) prev) (lit 100)) |}.
Proof.
  intros H. unfold resolve_or_absent, resolve. rewrite H. unfold bind.
  destruct (iloc_from_end init prev last) as [Hp Hl].
  replace (Nat.leb 2 (List.length (init ++ [prev; last])%list)) with true.
  - rewrite Hp, Hl. reflexivity.
  - symmetry. apply Nat.leb_le. rewrite length_app. simpl. lia.
Qed.

Lemma resolve_or_absent_cases (tickers : list string) (data : pdobj)
  (s : StockRef) :
  resolve_or_absent tickers data s = absent s \/
  exists last pct,
    resolve_or_absent tickers data s
    = {| stock := s; price := Some last; change_pct := Some pct |}.
Proof.
  destruct (bad_symbol tickers data s) eqn:B.
  - left. now apply resolve_or_absent_bad.
  - right. unfold bad_symbol in B.
    destruct (valid_closes tickers data s) as [closes | e] eqn:V;
      [| discriminate].
    apply Nat.ltb_ge in B.
    destruct (two_last closes B) as (init & prev & last & ->).
    exists last, (fmul (fdiv (fsub last prev) prev) (lit 100)).
    now apply resolve_or_absent_two with (init := init).
Qed.

(** The ticker list matters only through the test [len(tickers) == 1]. *)
Lemma resolve_or_absent_tickers (t t' : list string) (data : pdobj)
  (s : StockRef) :
  Nat.eqb (List.length t) 1 = Nat.eqb (List.length t') 1 ->
  resolve_or_absent t data s = resolve_or_absent t' data s.
Proof.
  intros H. unfold resolve_or_absent, resolve, valid_closes.
  now rewrite H.
Qed.

(** With several tickers a stock is resolved from its own group alone. *)
Lemma resolve_or_absent_own_entry (tickers : list string) (data data' : pdobj)
  (s : StockRef) :
  List.length tickers <> 1 ->
  getitem data' (code s) = getitem data (code s) ->
  resolve_or_absent tickers data' s = resolve_or_absent tickers data s.
Proof.
  intros Hn H. unfold resolve_or_absent, resolve, valid_closes.
  apply Nat.eqb_neq in Hn. now rewrite Hn, H.
Qed.

(** C4 (amended).  A bad symbol (its lookup raises, or fewer than two
    valid closes remain) gets the absent result at its own position; the
    batch is never aborted, every stock gets a result; each other symbol
    is resolved from its own entry of the batch table, whatever the table
    holds elsewhere; and the results of the other symbols are those of
    the roster without the bad symbol, provided that roster does not
    consist of exactly one symbol (a one-symbol roster reads the same
    table without the ticker level). *)
Theorem failure_isolation (l1 l2 : list StockRef) (bad : StockRef)
  (data : pdobj) :
  let stocks := (l1 ++ bad :: l2)%list in
  let tickers := map code stocks in
  let others := map (resolve_or_absent tickers data) in
  bad_symbol tickers data bad = true ->
  fetch_price_data stocks data = (others l1 ++ absent bad :: others l2)%list /\
  List.length (fetch_price_data stocks data) = List.length stocks /\
  (forall (s : StockRef) (data' : pdobj),
      In s (l1 ++ l2) ->
      getitem data' (code s) = getitem data (code s) ->
      resolve_or_absent tickers data' s = resolve_or_absent tickers data s) /\
  (List.length (l1 ++ l2) <> 1 ->
   fetch_price_data (l1 ++ l2) data = (others l1 ++ others l2)%list).
Proof.
  intros stocks tickers others Hbad.
  assert (Hlen : List.length tickers = S (List.length (l1 ++ l2))).
  { unfold tickers, stocks. rewrite length_map, !length_app. simpl. lia. }
  repeat split.
  - rewrite fetch_price_data_map. fold tickers. unfold stocks.
    rewrite map_app. simpl. f_equal. f_equal.
    now apply resolve_or_absent_bad.
  - rewrite fetch_price_data_map. apply length_map.
  - intros s data' Hin Hentry.
    apply resolve_or_absent_own_entry; [| exact Hentry].
    rewrite Hlen. destruct (l1 ++ l2)%list; [contradiction | simpl; lia].
  - intros Hn. rewrite fetch_price_data_map. unfold others.
    rewrite <- map_app. apply map_ext_in. intros s Hin.
    apply resolve_or_absent_tickers.
    rewrite Hlen, length_map.
    destruct (l1 ++ l2)%list as [| a [| b l]]; simpl in *;
      [contradiction | contradiction | reflexivity].
Qed.

(** Dropping the missing entries of a series that ends in a previous
    and a last valid close, with missing entries anywhere around them. *)
Lemma dropna_last_two (before gap1 gap2 : list pyfloat)
  (prev last : pyfloat) :
  prev <> NaN -> last <> NaN ->
  Forall (fun x => x = NaN) gap1 -> Forall (fun x => x = NaN) gap2 ->
  filter (fun x => negb (is_nan x))
         (before ++ [prev] ++ gap1 ++ [last] ++ gap2)
  = (filter (fun x => negb (is_nan x)) before ++ [prev; last])%list.
Proof.
  intros Hp Hl H1 H2.
  assert (Hgap : forall gap, Forall (fun x => x = NaN) gap ->
                             filter (fun x => negb (is_nan x)) gap = []).
  { induction 1 as [| x gap -> _ IH]; simpl; [reflexivity | exact IH]. }
  assert (Hkeep : forall x, x <> NaN -> negb (is_nan x) = true)
    by (intros [q | | | | ] H; try reflexivity; congruence).
  rewrite !filter_app, (Hgap gap1 H1), (Hgap gap2 H2). simpl.
  rewrite (Hkeep prev Hp), (Hkeep last Hl). reflexivity.
Qed.

Lemma last_valid_close (values : list pyfloat) :
  1 <= List.length (filter (fun x => negb (is_nan x)) values) ->
  exists (before gap : list pyfloat) (last : pyfloat),
    values = (before ++ [last] ++ gap)%list /\ last <> NaN /\
    Forall (fun x => x = NaN) gap.
Proof.
  induction values as [| x values IH] using rev_ind; simpl; [lia |].
  rewrite filter_app, length_app. simpl.
  destruct (is_nan x) eqn:Ex; simpl.
  - rewrite Nat.add_0_r. intros H.
    destruct (IH H) as (before & gap & last & -> & Hl & Hg).
    exists before, (gap ++ [x])%list, last. repeat split; trivial.
    + now rewrite <- !app_assoc.
    + apply Forall_app. split; [exact Hg |]. constructor; [| constructor].
      now destruct x.
  - intros _. exists values, [], x. repeat split; [| constructor].
    intros ->. discriminate.
Qed.

(** Every series that keeps at least two entries has that shape. *)
Lemma two_valid_closes_shape (values : list pyfloat) :
  2 <= List.length (filter (fun x => negb (is_nan x)) values) ->
  exists (before gap1 gap2 : list pyfloat) (prev last : pyfloat),
    values = (before ++ [prev] ++ gap1 ++ [last] ++ gap2)%list /\
    prev <> NaN /\ last <> NaN /\
    Forall (fun x => x = NaN) gap1 /\ Forall (fun x => x = NaN) gap2.
Proof.
  intros H.
  destruct (last_valid_close values) as (rest & gap2 & last & -> & Hl & H2);
    [lia |].
  assert (Hkeep : negb (is_nan last) = true)
    by (destruct last; try reflexivity; congruence).
  assert (Hgap : filter (fun x => negb (is_nan x)) gap2 = []).
  { clear -H2. induction H2 as [| x gap -> _ IH]; simpl; trivial. }
  rewrite !filter_app in H. simpl in H. rewrite Hkeep, Hgap in H.
  rewrite length_app in H. simpl in H.
  destruct (last_valid_close rest) as (before & gap1 & prev & -> & Hp & H1);
    [lia |].
  exists before, gap1, gap2, prev, last. repeat split; trivial.
  now rewrite <- !app_assoc.
Qed.

(** C5.  A symbol whose [Close] column ends, missing entries apart, in
    a previous and a last valid close gets the last one as price and
    [(last - previous) / previous * 100], evaluated in binary64 as line
    54 does, as change.  Every column that keeps at least two entries
    once the missing ones are dropped is of that form.  One symbol with
    closes [[100, 100, 105]] gets price 105 and change 5, which is
    classified dark green with white text. *)
Theorem resolver_computation (stocks : list StockRef)
  (columns : list (string * pdobj)) (i : nat) (s : StockRef)
  (values before gap1 gap2 : list pyfloat) (prev last : pyfloat) :
  nth_error stocks i = Some s ->
  (List.length stocks <> 1 /\
   exists g, lookup (code s) columns = Some (DataFrame g) /\
             lookup "Close" g = Some (Series values))
  \/ (List.length stocks = 1 /\
      lookup "Close" columns = Some (Series values)) ->
  values = (before ++ [prev] ++ gap1 ++ [last] ++ gap2)%list ->
  prev <> NaN -> last <> NaN ->
  Forall (fun x => x = NaN) gap1 -> Forall (fun x => x = NaN) gap2 ->
  nth_error (fetch_price_data stocks (DataFrame columns)) i
  = Some {| stock := s; price := Some last;
            change_pct := Some (fmul (fdiv (fsub last prev) prev) (lit 100)) |}
  /\ (forall column : list pyfloat,
         2 <= List.length (filter (fun x => negb (is_nan x)) column) ->
         exists (before' gap1' gap2' : list pyfloat) (prev' last' : pyfloat),
           column
           = (before' ++ [prev'] ++ gap1' ++ [last'] ++ gap2')%list /\
           prev' <> NaN /\ last' <> NaN /\
           Forall (fun x => x = NaN) gap1' /\
           Forall (fun x => x = NaN) gap2')
  /\ (forall s1 : StockRef,
         fetch_price_data [s1]
           (DataFrame [("Close", Series [lit 100; lit 100; lit 105])])
         = [ {| stock := s1; price := Some (lit 105);
                change_pct := Some (lit 5) |} ]
         /\ classify (Some (lit 5)) = (dark_green, white)).
Proof.
  intros Hi Htable -> Hp Hl H1 H2. split; [| split].
  2: exact two_valid_closes_shape.
  - rewrite fetch_price_data_map, nth_error_map, Hi. simpl. f_equal.
    apply (resolve_or_absent_two _ _ _
             (filter (fun x => negb (is_nan x)) before)).
    unfold valid_closes. rewrite length_map.
    destruct Htable as [[Hn (g & Hg & Hclose)] | [Hn Hclose]].
    + apply Nat.eqb_neq in Hn. rewrite Hn. simpl. rewrite Hg. simpl.
      rewrite Hclose. simpl. f_equal. now apply dropna_last_two.
    + rewrite Hn. simpl. rewrite Hclose. simpl. f_equal.
      now apply dropna_last_two.
  - intros s1. split; reflexivity.
Qed.

(** C9.  In every result of the resolver the price and the change are
    both present or both absent. *)
Theorem price_and_change_together (stocks : list StockRef) (data : pdobj) :
  Forall (fun r => consistent r = true
                   /\ (price r = None <-> change_pct r = None))
         (fetch_price_data stocks data).
Proof.
  rewrite fetch_price_data_map. apply Forall_map, Forall_forall.
  intros s _.
  destruct (resolve_or_absent_cases (map code stocks) data s)
    as [-> | (last & pct & ->)]; simpl.
  - tauto.
  - split; [reflexivity | split; discriminate].
Qed.

(** C10.  The resolver returns one result per stock of the roster, in
    roster order, and each result carries its stock (code, name and
    sector) unchanged. *)
Theorem roster_preserved (stocks : list StockRef) (data : pdobj) :
  map stock (fetch_price_data stocks data) = stocks /\
  List.length (fetch_price_data stocks data) = List.length stocks /\
  (forall (i : nat) (r : StockResult),
      nth_error (fetch_price_data stocks data) i = Some r ->
      exists s : StockRef,
        nth_error stocks i = Some s /\
        code (stock r) = code s /\ name (stock r) = name s /\
        sector (stock r) = sector s).
Proof.
  rewrite fetch_price_data_map. repeat split.
  - rewrite map_map. rewrite <- (map_id stocks) at 2.
    apply map_ext. intros s.
    destruct (resolve_or_absent_cases (map code stocks) data s)
      as [-> | (last & pct & ->)]; reflexivity.
  - apply length_map.
  - intros i r. rewrite nth_error_map.
    destruct (nth_error stocks i) as [s |]; simpl; [| discriminate].
    intros [= <-]. exists s.
    destruct (resolve_or_absent_cases (map code stocks) data s)
      as [-> | (last & pct & ->)]; simpl; auto.
Qed.

(** The third result of a roster of three carries the third stock. *)
Lemma roster_preserved_witness :
  exists s : StockRef,
    nth_error [toyota; sony; honda] 2 = Some s /\
    code honda = code s /\ name honda = name s /\ sector honda = sector s.
Proof.
  exact (proj2 (proj2 (roster_preserved [toyota; sony; honda] grouped_table))
           2
           {| stock := honda; price := Some (lit 190);
              change_pct := Some (lit (-5)) |}
           eq_refl).
Defined.

(** Three stocks, the second without a group in the table: the first and
    the third are resolved, the second is absent. *)
Lemma failure_isolation_witness :
  bad_symbol (map code [toyota; sony; honda]) grouped_table sony = true /\
  fetch_price_data [toyota; sony; honda] grouped_table
  = [ {| stock := toyota; price := Some (lit 105);
         change_pct := Some (lit 5) |};
      absent sony;
      {| stock := honda; price := Some (lit 190);
         change_pct := Some (lit (-5)) |} ].
Proof.
  split; [reflexivity |].
  exact (proj1 (failure_isolation [toyota] [honda] sony grouped_table
                  eq_refl)).
Defined.

(** C4, as stated, fails on a roster of two: with the same table, the
    remaining stock alone is read without the ticker level and becomes
    absent, whereas next to the bad symbol it is resolved. *)
Lemma failure_isolation_counterexample :
  bad_symbol (map code [toyota; sony]) grouped_table sony = true /\
  fetch_price_data [toyota; sony] grouped_table
  = [ {| stock := toyota; price := Some (lit 105);
         change_pct := Some (lit 5) |};
      absent sony ] /\
  fetch_price_data [toyota] grouped_table = [absent toyota] /\
  absent toyota
  <> {| stock := toyota; price := Some (lit 105);
        change_pct := Some (lit 5) |}.
Proof. repeat split. discriminate. Qed.

(** Toyota among three stocks, with a missing entry between its closes. *)
Lemma resolver_computation_witness :
  nth_error (fetch_price_data [toyota; sony; honda] grouped_table) 0
  = Some {| stock := toyota; price := Some (lit 105);
            change_pct := Some (lit 5) |}.
Proof.
  refine (proj1 (resolver_computation [toyota; sony; honda] _ 0 toyota
                   [lit 100; NaN; lit 100; lit 105] [lit 100; NaN] [] []
                   (lit 100) (lit 105) eq_refl _ eq_refl _ _ _ _)).
  - left. split; [discriminate |].
    exists [("Close", Series [lit 100; NaN; lit 100; lit 105])].
    split; reflexivity.
  - discriminate.
  - discriminate.
  - constructor.
  - constructor.
Defined.

(** ** The change-ordered views *)

Lemma array_sort_map {A B : Type} (cmpA : A -> A -> pyfloat)
  (cmpB : B -> B -> pyfloat) (f : A -> B) :
  (forall a b, cmpB (f a) (f b) = cmpA a b) ->
  forall l, array_sort cmpB (map f l) = map f (array_sort cmpA l).
Proof.
  intros Hcmp.
  assert (Hins : forall x l,
             array_insert cmpB (f x) (map f l)
             = map f (array_insert cmpA x l)).
  { intros x l. induction l as [| y l IH]; simpl; [reflexivity |].
    rewrite Hcmp. destruct (cmp_sign (cmpA x y)); simpl;
      try reflexivity. now rewrite IH. }
  unfold array_sort.
  induction l as [| x l IH]; simpl; [reflexivity |].
  now rewrite IH, Hins.
Qed.

Lemma js_or_absent_as_zero (s : Js.stock) :
  js_or (Js.change_pct (absent_as_zero s)) (JNum (lit 0))
  = js_or (Js.change_pct s) (JNum (lit 0)).
Proof.
  unfold absent_as_zero.
  destruct (Js.change_pct s) as [| x] eqn:E; simpl.
  - reflexivity.
  - now rewrite E.
Qed.

(** C6.  In the descending and in the ascending change view the records
    are arranged exactly as the same dataset with every absent
    [change_pct] replaced by [0]: the comparators cannot tell the two
    apart, so every record keeps its position. *)
Theorem absent_sorts_as_zero :
  (forall a b : Js.stock,
      compare_desc (absent_as_zero a) (absent_as_zero b) = compare_desc a b /\
      compare_asc (absent_as_zero a) (absent_as_zero b) = compare_asc a b) /\
  (forall stockData : list Js.stock,
      change_desc stockData = array_sort compare_desc stockData /\
      change_asc stockData = array_sort compare_asc stockData /\
      change_desc (map absent_as_zero stockData)
      = map absent_as_zero (change_desc stockData) /\
      change_asc (map absent_as_zero stockData)
      = map absent_as_zero (change_asc stockData)).
Proof.
  assert (H : forall a b : Js.stock,
             compare_desc (absent_as_zero a) (absent_as_zero b)
             = compare_desc a b /\
             compare_asc (absent_as_zero a) (absent_as_zero b)
             = compare_asc a b).
  { intros a b. unfold compare_desc, compare_asc.
    now rewrite !js_or_absent_as_zero. }
  split; [exact H |].
  intros stockData. repeat split.
  - apply (array_sort_map compare_desc compare_desc). apply H.
  - apply (array_sort_map compare_asc compare_asc). apply H.
Qed.

(** ** Rendering of an absent observation *)

(** C7, as stated, fails: for an absent observation the price text is
    empty, on the server and in the script; ["N/A"] is the change text. *)
Lemma absent_price_text_counterexample :
  price_str no_number (absent toyota) = "" /\
  price_str no_number (absent toyota) <> "N/A" /\
  makeTile_price no_number (json_record (absent toyota)) = "" /\
  makeTile_price no_number (json_record (absent toyota)) <> "N/A".
Proof. repeat split; discriminate. Qed.

(** C7 (amended).  A symbol whose lookup fails or leaves fewer than two
    valid closes is rendered, by the server and by [makeTile], on the
    neutral-gray background with white text, with ["N/A"] as its change
    text and the empty string as its price text. *)
Theorem absent_rendering
  (format_signed_2f format_grouped_0f str_float toFixed2 toLocaleString
     : pyfloat -> string)
  (stocks : list StockRef) (data : pdobj) (i : nat) (s : StockRef) :
  nth_error stocks i = Some s ->
  bad_symbol (map code stocks) data s = true ->
  exists r : StockResult,
    nth_error (fetch_price_data stocks data) i = Some r /\
    r = absent s /\
    classify (change_pct r) = (neutral_gray, white) /\
    change_str format_signed_2f r = "N/A" /\
    price_str format_grouped_0f r = "" /\
    tile format_signed_2f format_grouped_0f str_float r
    = "<div class=" ++ quoted "tile"
        ++ " data-sector=" ++ quoted (sector s) ++ " "
        ++ "data-code=" ++ quoted (remove_dot_T (code s)) ++ " "
        ++ "data-change=" ++ quoted "0" ++ " "
        ++ "style=" ++ quoted "background-color:#9E9E9E;color:#FFFFFF" ++ ">"
        ++ "<div class=" ++ quoted "tile-name" ++ ">" ++ name s ++ "</div>"
        ++ "<div class=" ++ quoted "tile-code" ++ ">"
        ++ remove_dot_T (code s) ++ "</div>"
        ++ "<div class=" ++ quoted "tile-change" ++ ">N/A</div>"
        ++ "<div class=" ++ quoted "tile-price" ++ "></div>"
        ++ "</div>" /\
    getColor (Js.change_pct (json_record r)) = neutral_gray /\
    getTextColor (Js.change_pct (json_record r)) = white /\
    makeTile_change toFixed2 (json_record r) = "N/A" /\
    makeTile_price toLocaleString (json_record r) = "" /\
    makeTile toFixed2 toLocaleString (json_record r)
    = "<div class=" ++ quoted "tile" ++ " style="
        ++ quoted "background-color:#9E9E9E;color:#FFFFFF" ++ ">"
        ++ "<div class=" ++ quoted "tile-name" ++ ">" ++ name s ++ "</div>"
        ++ "<div class=" ++ quoted "tile-code" ++ ">"
        ++ remove_dot_T (code s) ++ "</div>"
        ++ "<div class=" ++ quoted "tile-change" ++ ">N/A</div>"
        ++ "<div class=" ++ quoted "tile-price" ++ "></div>"
        ++ "</div>".
Proof.
  intros Hi Hbad. exists (absent s). split.
  - rewrite fetch_price_data_map, nth_error_map, Hi. simpl. f_equal.
    now apply resolve_or_absent_bad.
  - repeat split.
Qed.

(** Hitachi has a single valid close, Sony has no group in the table. *)
Lemma absent_rendering_witness :
  (exists r : StockResult,
      nth_error (fetch_price_data [toyota; hitachi; sony] grouped_table) 1
      = Some r /\
      change_str no_number r = "N/A" /\ price_str no_number r = "") /\
  (exists r : StockResult,
      nth_error (fetch_price_data [toyota; hitachi; sony] grouped_table) 2
      = Some r /\
      change_str no_number r = "N/A" /\ price_str no_number r = "").
Proof.
  split.
  - destruct (absent_rendering no_number no_number no_number no_number
                no_number [toyota; hitachi; sony] grouped_table 1 hitachi
                eq_refl eq_refl)
      as (r & Hr & _ & _ & Hc & Hp & _).
    exists r. repeat split; assumption.
  - destruct (absent_rendering no_number no_number no_number no_number
                no_number [toyota; hitachi; sony] grouped_table 2 sony
                eq_refl eq_refl)
      as (r & Hr & _ & _ & Hc & Hp & _).
    exists r. repeat split; assumption.
Defined.

(** ** Order of the sectors *)

(** C3.  On two sectors whose smallest codes are ["1001.T"] and
    ["998.T"], the server puts the sector of ["1001.T"] first, because it
    compares the codes as strings, although 998 is the smaller number;
    the sector mode of the script, which parses the codes, puts the
    sector of 998 first.  The same happens with the codes ["1332.T"] and
    ["285A.T"], which the script reads as 1332 and 285. *)
Theorem sector_order_by_code_string :
  (map fst (server_view mixed_length_results) = ["Fishery"; "Mining"] /\
   ("1001.T" <? "998.T") = true /\
   min_parsed_code
     (members (sector_groups (json_data mixed_length_results)) "Fishery")
   = lit 1001 /\
   min_parsed_code
     (members (sector_groups (json_data mixed_length_results)) "Mining")
   = lit 998 /\
   (forall localeCompare : string -> string -> pyfloat,
       map fst (sector_mode localeCompare (json_data mixed_length_results))
       = ["Mining"; "Fishery"])) /\
  (map fst (server_view alphanumeric_results) = ["Fishery"; "Electric"] /\
   min_parsed_code
     (members (sector_groups (json_data alphanumeric_results)) "Fishery")
   = lit 1332 /\
   min_parsed_code
     (members (sector_groups (json_data alphanumeric_results)) "Electric")
   = lit 285 /\
   (forall localeCompare : string -> string -> pyfloat,
       map fst (sector_mode localeCompare (json_data alphanumeric_results))
       = ["Electric"; "Fishery"])).
Proof. repeat split. Qed.

(** On binary64 the closes 100 and 105 give exactly 5.0 as well. *)
Lemma binary64_change_100_105 :
  binary64_change 100%float 105%float = 5%float.
Proof. vm_compute. reflexivity. Qed.

(** ** What the server-side ordering guarantees *)

Lemma ltb_leb (a b : string) : (a <? b) = true -> (a <=? b) = true.
Proof.
  unfold String.ltb, String.leb. now destruct (a ?= b).
Qed.

Lemma ltb_false_leb (a b : string) : (a <? b) = false -> (b <=? a) = true.
Proof.
  unfold String.ltb, String.leb. rewrite (String.compare_antisym a b).
  now destruct (b ?= a).
Qed.

Section SortedFacts.
Context {A : Type} (key : A -> string).

Lemma insert_sorted_HdRel (y x : A) (l : list A) :
  ascending key y x -> HdRel (ascending key) y l ->
  HdRel (ascending key) y (insert_sorted key x l).
Proof.
  intros Hyx Hl. destruct l as [| z l]; simpl.
  - now constructor.
  - destruct (key z <? key x); constructor; trivial.
    now inversion Hl.
Qed.

Lemma insert_sorted_Sorted (x : A) (l : list A) :
  Sorted (ascending key) l -> Sorted (ascending key) (insert_sorted key x l).
Proof.
  induction 1 as [| y l Hs IH Hhd]; simpl.
  - repeat constructor.
  - destruct (key y <? key x) eqn:E.
    + constructor; [exact IH |].
      apply insert_sorted_HdRel; [| exact Hhd].
      apply ltb_leb, E.
    + constructor; [now constructor |].
      constructor. apply ltb_false_leb, E.
Qed.

(** [sorted] returns its argument rearranged with ascending keys. *)
Lemma sorted_Sorted (l : list A) : Sorted (ascending key) (sorted key l).
Proof.
  induction l as [| x l IH]; simpl; [constructor |].
  now apply insert_sorted_Sorted.
Qed.

Lemma insert_sorted_Permutation (x : A) (l : list A) :
  Permutation (insert_sorted key x l) (x :: l).
Proof.
  induction l as [| y l IH]; simpl; [reflexivity |].
  destruct (key y <? key x); [| reflexivity].
  rewrite IH. apply perm_swap.
Qed.

Lemma sorted_Permutation (l : list A) : Permutation (sorted key l) l.
Proof.
  induction l as [| x l IH]; simpl; [reflexivity |].
  now rewrite insert_sorted_Permutation, IH.
Qed.
End SortedFacts.

(** X16.  In the server-rendered view the tiles of a sector are the
    results of that sector with their code strings ascending, and the
    sectors follow their smallest code string in ascending order. *)
Lemma server_view_order (results : list StockResult) :
  let sectors := group_by_sector results in
  Forall (fun '(s, rs) =>
            Sorted (ascending (fun r => code (stock r))) rs /\
            Permutation rs (members sectors s))
         (server_view results) /\
  Sorted (ascending (fun s => min_code (members sectors s)))
         (map fst (server_view results)) /\
  Permutation (map fst (server_view results)) (map fst sectors).
Proof.
  intros sectors. unfold server_view. fold sectors. repeat split.
  - apply Forall_map, Forall_forall. intros s _. split.
    + apply sorted_Sorted.
    + apply sorted_Permutation.
  - rewrite map_map. simpl. rewrite map_id. apply sorted_Sorted.
  - rewrite map_map. simpl. rewrite map_id. apply sorted_Permutation.
Qed.

(** * Further properties of the script *)

(** ** The success count of [main] *)

Lemma list_sum_ones {A : Type} (l : list A) :
  list_sum (map (fun _ => 1) l) = List.length l.
Proof. induction l as [| a l IH]; simpl; [reflexivity | now rewrite IH]. Qed.

Lemma change_pct_resolved (tickers : list string) (data : pdobj)
  (s : StockRef) :
  change_pct (resolve_or_absent tickers data s) = None
  <-> bad_symbol tickers data s = true.
Proof.
  split.
  - intros H. destruct (bad_symbol tickers data s) eqn:B; [reflexivity |].
    unfold bad_symbol in B.
    destruct (valid_closes tickers data s) as [closes | e] eqn:V;
      [| discriminate].
    apply Nat.ltb_ge in B.
    destruct (two_last closes B) as (init & prev & last & ->).
    rewrite (resolve_or_absent_two tickers data s init prev last V) in H.
    discriminate.
  - intros B. now rewrite resolve_or_absent_bad.
Qed.

(** X1.  The number [main] reports as fetched is the number of stocks
    of the roster that have at least two valid closes; together with the
    bad symbols it makes up the roster. *)
Theorem success_counts_resolved (stocks : list StockRef) (data : pdobj) :
  let tickers := map code stocks in
  success (fetch_price_data stocks data)
  = List.length (filter (fun s => negb (bad_symbol tickers data s)) stocks) /\
  success (fetch_price_data stocks data)
  + List.length (filter (bad_symbol tickers data) stocks)
  = List.length stocks.
Proof.
  intros tickers.
  assert (H : success (fetch_price_data stocks data)
              = List.length
                  (filter (fun s => negb (bad_symbol tickers data s)) stocks)).
  { unfold success. rewrite list_sum_ones, fetch_price_data_map.
    fold tickers. generalize tickers. intros t.
    induction stocks as [| s l IH]; simpl; [reflexivity |].
    destruct (bad_symbol t data s) eqn:B; simpl.
    - apply change_pct_resolved in B. rewrite B. exact IH.
    - destruct (change_pct (resolve_or_absent t data s)) eqn:C.
      + simpl. now rewrite IH.
      + apply change_pct_resolved in C. congruence. }
  split; [exact H |]. rewrite H.
  clear H. clearbody tickers.
  induction stocks as [| s l IH]; simpl; [reflexivity |].
  destruct (bad_symbol tickers data s); simpl; lia.
Qed.

(** ** Every view mode shows each record once *)

Section ArraySortFacts.
Context {A : Type} (cmp : A -> A -> pyfloat).

Lemma array_insert_Permutation (x : A) (l : list A) :
  Permutation (array_insert cmp x l) (x :: l).
Proof.
  induction l as [| y l IH]; simpl; [reflexivity |].
  destruct (cmp_sign (cmp x y)); try reflexivity.
  rewrite IH. apply perm_swap.
Qed.

Lemma array_sort_Permutation (l : list A) : Permutation (array_sort cmp l) l.
Proof.
  unfold array_sort. induction l as [| x l IH]; simpl; [reflexivity |].
  now rewrite array_insert_Permutation, IH.
Qed.

(** A comparator that is positive only on pairs in the wrong order
    leaves every neighbour pair in the right order. *)
Lemma array_sort_Sorted (R : A -> A -> Prop) :
  (forall x y, cmp_sign (cmp x y) = Gt -> R y x) ->
  (forall x y, cmp_sign (cmp x y) <> Gt -> R x y) ->
  forall l, Sorted R (array_sort cmp l).
Proof.
  intros Hgt Hle.
  assert (Hins : forall x l, Sorted R l -> Sorted R (array_insert cmp x l)).
  { intros x l Hs. induction Hs as [| y l Hs IH Hhd]; simpl.
    - repeat constructor.
    - destruct (cmp_sign (cmp x y)) eqn:E.
      + constructor; [now constructor |]. constructor.
        apply Hle. congruence.
      + constructor; [now constructor |]. constructor.
        apply Hle. congruence.
      + constructor; [exact IH |].
        destruct l as [| z l]; simpl.
        * constructor. now apply Hgt.
        * destruct (cmp_sign (cmp x z)); constructor;
            try (now apply Hgt); now inversion Hhd. }
  unfold array_sort. induction l as [| x l IH]; simpl; [constructor |].
  now apply Hins.
Qed.
End ArraySortFacts.

(** ** The change-ordered modes are ordered *)

Lemma round_half_even_nonneg (N D : Z) :
  (0 <= N)%Z -> (0 < D)%Z -> (0 <= round_half_even N D)%Z.
Proof.
  intros HN HD. unfold round_half_even.
  assert (0 <= N / D)%Z by (apply Z.div_pos; lia).
  destruct (2 * (N mod D) ?= D)%Z; [destruct (Z.even (N / D)) | |]; lia.
Qed.

(** Rounding a positive rational gives an infinity or a finite value
    that is not negative. *)
Lemma round_pos_cases (n d : positive) :
  round_pos n d = PosInf \/
  exists r : Q, round_pos n d = Fin r /\ (0 <= r)%Q.
Proof.
  unfold round_pos.
  set (e := Z.max (log2_ratio n d - 52) (-1074)).
  destruct ((971 <? e) || ((e =? 971) && _))%Z; [now left | right].
  destruct (0 <=? e)%Z eqn:E.
  - apply Z.leb_le in E. eexists. split; [reflexivity |].
    rewrite Qred_correct.
    assert (0 < 2 ^ e)%Z by (apply Z.pow_pos_nonneg; lia).
    assert (0 <= round_half_even (Z.pos n) (Z.pos d * 2 ^ e))%Z
      by (apply round_half_even_nonneg; lia).
    change 0%Q with (inject_Z 0). rewrite <- Zle_Qle.
    apply Z.mul_nonneg_nonneg; lia.
  - eexists. split; [reflexivity |]. rewrite Qred_correct.
    apply Z.leb_gt in E.
    assert (0 < 2 ^ (- e))%Z by (apply Z.pow_pos_nonneg; lia).
    assert (0 <= round_half_even (Z.pos n * 2 ^ (- e)) (Z.pos d))%Z
      by (apply round_half_even_nonneg; lia).
    unfold Qle. cbn [Qnum Qden]. lia.
Qed.

(** The sign of a difference of finite values is the order of the
    operands. *)
Lemma cmp_sign_fsub_finite (x y : pyfloat) :
  is_nan x = false -> is_inf x = false ->
  is_nan y = false -> is_inf y = false ->
  cmp_sign (fsub x y) = (finite_value x ?= finite_value y)%Q.
Proof.
  intros Nx Ix Ny Iy.
  assert (E : fsub x y
              = let d := (finite_value x - finite_value y)%Q in
                if Qeq_bool d 0 then
                  (if negative x && negb (negative y) then NegZero else Fin 0)
                else if is_zero (round64 d) then
                  signed (Qnum d <? 0)%Z (Fin min_subnormal)
                else round64 d).
  { destruct x, y; try discriminate; reflexivity. }
  rewrite E. clear E. cbv zeta.
  set (a := finite_value x). set (b := finite_value y).
  destruct (Qeq_bool (a - b) 0) eqn:E0.
  - apply Qeq_bool_iff in E0. symmetry.
    replace (cmp_sign _) with Eq
      by (destruct (negative x && negb (negative y)); reflexivity).
    apply (proj1 (Qeq_alt a b)). lra.
  - assert (Hne : ~ (a - b == 0)%Q)
      by (intros H; apply Qeq_bool_iff in H; congruence).
    unfold round64. destruct (Qnum (a - b)) as [| n | n] eqn:En.
    + exfalso. apply Hne. unfold Qeq. rewrite En. reflexivity.
    + assert (Hpos : (0 < a - b)%Q) by (unfold Qlt; rewrite En; reflexivity).
      assert (Hgt : (a ?= b)%Q = Gt) by (apply (proj1 (Qgt_alt a b)); lra).
      rewrite Hgt. change (Z.pos n <? 0)%Z with false.
      destruct (round_pos_cases n (Qden (a - b))) as [-> | (r & -> & Hr)];
        [reflexivity |].
      cbn [is_zero]. destruct (Qeq_bool r 0) eqn:Er; [reflexivity |].
      cbn [cmp_sign]. apply (proj1 (Qgt_alt r 0)).
      assert (~ (r == 0)%Q)
        by (intros H; apply Qeq_bool_iff in H; congruence).
      lra.
    + assert (Hneg : (a - b < 0)%Q) by (unfold Qlt; rewrite En; reflexivity).
      assert (Hlt : (a ?= b)%Q = Lt) by (apply (proj1 (Qlt_alt a b)); lra).
      rewrite Hlt. change (Z.neg n <? 0)%Z with true.
      destruct (round_pos_cases n (Qden (a - b))) as [-> | (r & -> & Hr)];
        [reflexivity |].
      cbn [fneg]. destruct (Qeq_bool r 0) eqn:Er; [reflexivity |].
      cbn [is_zero]. destruct (Qeq_bool (- r) 0); [reflexivity |].
      cbn [cmp_sign]. apply (proj1 (Qlt_alt (- r) 0)).
      assert (~ (r == 0)%Q)
        by (intros H; apply Qeq_bool_iff in H; congruence).
      lra.
Qed.

Lemma fle_finite (x y : pyfloat) :
  is_nan x = false -> is_inf x = false ->
  is_nan y = false -> is_inf y = false ->
  fle x y = Qle_bool (finite_value x) (finite_value y).
Proof. destruct x, y; try discriminate; reflexivity. Qed.

(** The order read off a comparison of rationals. *)
Lemma Qle_bool_compare (a b : Q) :
  Qle_bool a b = match (a ?= b)%Q with Gt => false | _ => true end.
Proof.
  destruct (a ?= b)%Q eqn:E.
  - apply (proj2 (Qeq_alt a b)) in E. apply Qle_bool_iff. lra.
  - apply (proj2 (Qlt_alt a b)) in E. apply Qle_bool_iff. lra.
  - apply (proj2 (Qgt_alt a b)) in E.
    destruct (Qle_bool a b) eqn:L; [| reflexivity].
    apply Qle_bool_iff in L. lra.
Qed.

Lemma Qcompare_swap (a b : Q) : (b ?= a)%Q = CompOpp (a ?= b)%Q.
Proof. symmetry. apply Qcompare_antisym. Qed.

Lemma cmp_sign_fsub_gt (u v : pyfloat) :
  u <> NaN -> v <> NaN -> cmp_sign (fsub u v) = Gt -> fle v u = true.
Proof.
  intros Hu Hv.
  destruct (is_inf u) eqn:Iu;
    [destruct u, v; simpl in *; try congruence; discriminate |].
  destruct (is_inf v) eqn:Iv;
    [destruct u, v; simpl in *; try congruence; discriminate |].
  assert (Nu : is_nan u = false) by (destruct u; simpl; congruence).
  assert (Nv : is_nan v = false) by (destruct v; simpl; congruence).
  rewrite cmp_sign_fsub_finite, fle_finite, Qle_bool_compare by assumption.
  rewrite (Qcompare_swap (finite_value u)). intros ->. reflexivity.
Qed.

Lemma cmp_sign_fsub_not_gt (u v : pyfloat) :
  u <> NaN -> v <> NaN -> cmp_sign (fsub u v) <> Gt -> fle u v = true.
Proof.
  intros Hu Hv.
  destruct (is_inf u) eqn:Iu;
    [destruct u, v; simpl in *; try congruence; discriminate |].
  destruct (is_inf v) eqn:Iv;
    [destruct u, v; simpl in *; try congruence; discriminate |].
  assert (Nu : is_nan u = false) by (destruct u; simpl; congruence).
  assert (Nv : is_nan v = false) by (destruct v; simpl; congruence).
  rewrite cmp_sign_fsub_finite, fle_finite, Qle_bool_compare by assumption.
  destruct (finite_value u ?= finite_value v)%Q; congruence.
Qed.

Lemma change_key_not_nan (s : Js.stock) : change_key s <> NaN.
Proof.
  unfold change_key, js_or.
  destruct (Js.change_pct s) as [| [q | | | | ]]; simpl; try discriminate.
  destruct (Qeq_bool q 0); discriminate.
Qed.

(** X2.  In the descending view no record has a smaller change than
    the record after it, in the ascending view none has a larger one;
    the change of a record is its number, and [0] when it is absent. *)
Theorem change_views_ordered (stockData : list Js.stock) :
  Sorted (fun a b => fle (change_key b) (change_key a) = true)
         (change_desc stockData) /\
  Sorted (fun a b => fle (change_key a) (change_key b) = true)
         (change_asc stockData) /\
  (forall s : Js.stock,
      (Js.change_pct s = JNull -> change_key s = lit 0) /\
      (forall q : Q, Js.change_pct s = JNum (Fin q) ->
                     exists q' : Q, change_key s = Fin q' /\ (q' == q)%Q)).
Proof.
  repeat split.
  - apply array_sort_Sorted; intros x y H.
    + apply (cmp_sign_fsub_gt (change_key y) (change_key x));
        auto using change_key_not_nan.
    + apply (cmp_sign_fsub_not_gt (change_key y) (change_key x));
        auto using change_key_not_nan.
  - apply array_sort_Sorted; intros x y H.
    + apply (cmp_sign_fsub_gt (change_key x) (change_key y));
        auto using change_key_not_nan.
    + apply (cmp_sign_fsub_not_gt (change_key x) (change_key y));
        auto using change_key_not_nan.
  - intros H. unfold change_key. now rewrite H.
  - intros q H. unfold change_key, js_or. rewrite H. simpl.
    destruct (Qeq_bool q 0) eqn:E; simpl.
    + exists 0%Q. split; [reflexivity |].
      apply Qeq_bool_iff in E. now rewrite E.
    + exists q. split; reflexivity.
Qed.

(** ** Grouping by sector *)

Section GroupingFacts.
Context {A : Type} (k : A -> string).

Lemma lookup_group_append (key : string) (v : A) (d : dict (list A))
  (s : string) :
  lookup s (group_append key v d)
  = if String.eqb key s then Some (members d s ++ [v])%list else lookup s d.
Proof.
  unfold members. induction d as [| [k0 vs] d IH]; simpl.
  - reflexivity.
  - destruct (String.eqb_spec k0 key) as [-> | Hne]; simpl.
    + destruct (String.eqb key s); reflexivity.
    + rewrite IH. destruct (String.eqb_spec k0 s) as [-> | Hs].
      * destruct (String.eqb_spec key s) as [-> | _];
          [congruence | reflexivity].
      * reflexivity.
Qed.

Lemma members_group_append (key : string) (v : A) (d : dict (list A))
  (s : string) :
  members (group_append key v d) s
  = if String.eqb key s then (members d s ++ [v])%list else members d s.
Proof.
  unfold members at 1. rewrite lookup_group_append.
  destruct (String.eqb key s); reflexivity.
Qed.

Lemma members_grouping (l : list A) (d : dict (list A)) (s : string) :
  members (fold_left (fun g x => group_append (k x) x g) l d) s
  = (members d s ++ filter (fun x => String.eqb (k x) s) l)%list.
Proof.
  revert d. induction l as [| x l IH]; intros d; simpl.
  - now rewrite app_nil_r.
  - rewrite IH, members_group_append.
    destruct (String.eqb (k x) s); [| reflexivity].
    now rewrite <- app_assoc.
Qed.

Lemma keys_group_append (key : string) (v : A) (d : dict (list A)) :
  (forall s, In s (map fst (group_append key v d))
             <-> s = key \/ In s (map fst d)) /\
  (NoDup (map fst d) -> NoDup (map fst (group_append key v d))).
Proof.
  induction d as [| [k0 vs] d [IHin IHnd]]; simpl.
  - split; [intros s; intuition auto | intros _; repeat constructor; auto].
  - destruct (String.eqb_spec k0 key) as [-> | Hne]; simpl.
    + split; [intros s; intuition auto | auto].
    + split.
      * intros s. rewrite IHin. intuition auto.
      * intros Hnd. inversion Hnd as [| ? ? Hnin Hnd']. subst.
        constructor; [| auto].
        rewrite IHin. intros [-> | Hin]; [congruence | contradiction].
Qed.

Lemma keys_grouping (l : list A) (d : dict (list A)) :
  (forall s, In s (map fst (fold_left (fun g x => group_append (k x) x g) l d))
             <-> In s (map fst d) \/ exists x, In x l /\ k x = s) /\
  (NoDup (map fst d) ->
   NoDup (map fst (fold_left (fun g x => group_append (k x) x g) l d))).
Proof.
  revert d. induction l as [| x l IH]; intros d; simpl.
  - split; [| auto]. intros s. split; [auto |].
    intros [H | (x & [] & _)]. exact H.
  - destruct (IH (group_append (k x) x d)) as [IHin IHnd].
    destruct (keys_group_append (k x) x d) as [Hin Hnd].
    split.
    + intros s. rewrite IHin, Hin. split.
      * intros [[-> | H] | (y & Hy & Hk)]; eauto.
      * intros [H | (y & [<- | Hy] & Hk)]; eauto.
    + auto.
Qed.

Lemma concat_group_append (key : string) (v : A) (d : dict (list A)) :
  Permutation (List.concat (map snd (group_append key v d)))
              (v :: List.concat (map snd d)).
Proof.
  induction d as [| [k0 vs] d IH]; simpl.
  - reflexivity.
  - destruct (String.eqb k0 key); simpl.
    + rewrite <- app_assoc. simpl.
      rewrite <- Permutation_middle. reflexivity.
    + rewrite IH. rewrite <- Permutation_middle. reflexivity.
Qed.

Lemma concat_grouping (l : list A) (d : dict (list A)) :
  Permutation
    (List.concat (map snd (fold_left (fun g x => group_append (k x) x g) l d)))
    (List.concat (map snd d) ++ l).
Proof.
  revert d. induction l as [| x l IH]; intros d; simpl.
  - now rewrite app_nil_r.
  - rewrite IH, concat_group_append. simpl.
    rewrite <- Permutation_middle. reflexivity.
Qed.

(** With distinct keys, reading every key gives back every group. *)
Lemma members_of_keys (d : dict (list A)) :
  NoDup (map fst d) -> map (members d) (map fst d) = map snd d.
Proof.
  induction d as [| [k0 vs] d IH]; simpl; [reflexivity |].
  intros Hnd. inversion Hnd as [| ? ? Hnin Hnd']. subst.
  unfold members at 1. simpl. rewrite String.eqb_refl. f_equal.
  rewrite <- IH by assumption. apply map_ext_in. intros s Hs.
  unfold members. simpl.
  destruct (String.eqb_spec k0 s) as [-> | _]; [contradiction | reflexivity].
Qed.
End GroupingFacts.

Lemma flat_map_Permutation_pointwise {A B : Type} (f g : A -> list B)
  (l : list A) :
  (forall x, Permutation (f x) (g x)) ->
  Permutation (flat_map f l) (flat_map g l).
Proof.
  intros H. induction l as [| x l IH]; simpl; [reflexivity |].
  now apply Permutation_app.
Qed.

(** The groups of the server: distinct sector names, one per sector that
    occurs, each holding the results of its sector in roster order. *)
Lemma group_by_sector_facts (results : list StockResult) :
  let sectors := group_by_sector results in
  NoDup (map fst sectors) /\
  (forall s : string,
      In s (map fst sectors)
      <-> exists r, In r results /\ sector (stock r) = s) /\
  (forall s : string,
      members sectors s
      = filter (fun r => String.eqb (sector (stock r)) s) results) /\
  (forall s : string, In s (map fst sectors) -> members sectors s <> []).
Proof.
  intros sectors. unfold sectors, group_by_sector.
  destruct (keys_grouping (fun r => sector (stock r)) results [])
    as [Hin Hnd].
  assert (Hmem : forall s,
             members
               (fold_left
                  (fun g x => group_append (sector (stock x)) x g) results [])
               s
             = filter (fun r => String.eqb (sector (stock r)) s) results).
  { intros s. now rewrite (members_grouping (fun r => sector (stock r))). }
  repeat split.
  - apply Hnd. constructor.
  - intros H. apply Hin in H. destruct H as [[] | H]. exact H.
  - intros H. apply Hin. now right.
  - exact Hmem.
  - intros s H. rewrite Hmem. apply Hin in H.
    destruct H as [[] | (r & Hr & Hs)].
    intros Hnil.
    assert (Hf : In r (filter (fun r => String.eqb (sector (stock r)) s)
                              results)).
    { apply filter_In. split; [exact Hr |]. now apply String.eqb_eq. }
    rewrite Hnil in Hf. contradiction.
Qed.

(** X3.  The grouping of the server puts every result into the group of
    its own sector, in roster order: the sector names are distinct, a
    sector is listed exactly when some result carries it, and its group
    is the sub-list of the results with that sector, hence never empty. *)
Theorem group_by_sector_partition (results : list StockResult) :
  let sectors := group_by_sector results in
  NoDup (map fst sectors) /\
  (forall s : string,
      In s (map fst sectors)
      <-> exists r, In r results /\ sector (stock r) = s) /\
  (forall s : string,
      members sectors s
      = filter (fun r => String.eqb (sector (stock r)) s) results) /\
  (forall s : string, In s (map fst sectors) -> members sectors s <> []).
Proof. exact (group_by_sector_facts results). Qed.

(** X4.  The server-rendered view shows every result exactly once: the
    tiles of all sectors together are a rearrangement of the results,
    no sector appears twice, and every tile sits under its own sector. *)
Theorem server_view_shows_each_result_once (results : list StockResult) :
  Permutation (List.concat (map snd (server_view results))) results /\
  NoDup (map fst (server_view results)) /\
  Forall (fun '(s, rs) =>
            rs <> [] /\ Forall (fun r => sector (stock r) = s) rs)
         (server_view results).
Proof.
  destruct (group_by_sector_facts results) as (Hnd & Hin & Hmem & Hne).
  cbv zeta in *. unfold server_view.
  set (sectors := group_by_sector results) in *.
  assert (Hord : Permutation (sector_order sectors) (map fst sectors))
    by apply sorted_Permutation.
  repeat split.
  - rewrite map_map. simpl. rewrite <- flat_map_concat_map.
    rewrite (flat_map_Permutation_pointwise _ (members sectors))
      by (intros s; apply sorted_Permutation).
    rewrite Hord, flat_map_concat_map, members_of_keys by exact Hnd.
    apply (concat_grouping (fun r => sector (stock r)) results []).
  - rewrite map_map. simpl. rewrite map_id.
    apply (Permutation_NoDup (Permutation_sym Hord) Hnd).
  - apply Forall_map, Forall_forall. intros s Hs.
    apply (Permutation_in _ Hord) in Hs.
    assert (Hperm := sorted_Permutation (fun x => code (stock x))
                       (members sectors s)).
    split.
    + intros E. rewrite E in Hperm.
      apply Permutation_nil in Hperm. now apply (Hne s Hs).
    + apply Forall_forall. intros r Hr.
      apply (Permutation_in _ Hperm) in Hr.
      rewrite Hmem in Hr. apply filter_In in Hr.
      now apply String.eqb_eq.
Qed.

(** X5.  The two change-ordered modes and the code-ordered mode show
    every record of the dataset exactly once: each yields a
    rearrangement of it. *)
Theorem flat_modes_show_each_record_once
  (localeCompare : string -> string -> pyfloat) (stockData : list Js.stock) :
  Permutation (change_desc stockData) stockData /\
  Permutation (change_asc stockData) stockData /\
  Permutation (code_order localeCompare stockData) stockData.
Proof. repeat split; apply array_sort_Permutation. Qed.

(** X6.  With sector names that are plain keys, the sector mode shows
    every record exactly once, under its own sector, and no sector
    twice. *)
Theorem sector_mode_shows_each_record_once
  (localeCompare : string -> string -> pyfloat) (stockData : list Js.stock) :
  Forall (fun s => plain_key (Js.sector s) = true) stockData ->
  Permutation (List.concat (map snd (sector_mode localeCompare stockData)))
              stockData /\
  NoDup (map fst (sector_mode localeCompare stockData)) /\
  Forall (fun '(s, items) => Forall (fun x => Js.sector x = s) items)
         (sector_mode localeCompare stockData).
Proof.
  intros _. unfold sector_mode. set (groups := sector_groups stockData).
  assert (Hnd : NoDup (map fst groups))
    by (apply (keys_grouping Js.sector stockData []); constructor).
  assert (Hord : Permutation (sectorOrder groups) (map fst groups))
    by apply array_sort_Permutation.
  repeat split.
  - rewrite map_map. simpl. rewrite <- flat_map_concat_map.
    rewrite (flat_map_Permutation_pointwise _ (members groups))
      by (intros s; apply array_sort_Permutation).
    rewrite Hord, flat_map_concat_map, members_of_keys by exact Hnd.
    apply (concat_grouping Js.sector stockData []).
  - rewrite map_map. simpl. rewrite map_id.
    apply (Permutation_NoDup (Permutation_sym Hord) Hnd).
  - apply Forall_map, Forall_forall. intros s _.
    apply Forall_forall. intros x Hx.
    apply (Permutation_in _ (array_sort_Permutation _ _)) in Hx.
    unfold groups, sector_groups in Hx.
    rewrite (members_grouping Js.sector) in Hx. simpl in Hx.
    apply filter_In in Hx. now apply String.eqb_eq.
Qed.

(** The embedded dataset of a fetched roster of four. *)
Lemma sector_mode_shows_each_record_once_witness :
  Permutation
    (List.concat
       (map snd
          (sector_mode code_point_compare
             (json_data
                (fetch_price_data [toyota; hitachi; sony; honda]
                   grouped_table)))))
    (json_data (fetch_price_data [toyota; hitachi; sony; honda]
                  grouped_table)).
Proof.
  apply (sector_mode_shows_each_record_once code_point_compare
           (json_data (fetch_price_data [toyota; hitachi; sony; honda]
                         grouped_table))).
  repeat constructor.
Defined.

(** ** Codes made of digits *)

Lemma is_digit_bounds (c : ascii) :
  is_digit c = true -> 48 <= nat_of_ascii c <= 57.
Proof.
  unfold is_digit. intros H. apply andb_true_iff in H.
  destruct H as [H1 H2]. apply Nat.leb_le in H1, H2. lia.
Qed.

Lemma is_digit_cases (c : ascii) :
  is_digit c = true ->
  In c ["0"; "1"; "2"; "3"; "4"; "5"; "6"; "7"; "8"; "9"]%char.
Proof.
  destruct c as [[] [] [] [] [] [] [] []]; intros H;
    try discriminate H; simpl; auto 12.
Qed.

Lemma digit_value_digit (c : ascii) :
  is_digit c = true ->
  digit_value 10 c = Some (Z.of_nat (nat_of_ascii c) - 48)%Z.
Proof.
  intros H. apply is_digit_cases in H. simpl in H.
  decompose [or] H; subst; try reflexivity. contradiction.
Qed.

Lemma parse_digits_value (d : string) (a : Z) :
  all_digits d = true ->
  parse_digits 10 d (Some a) = Some (digits_value d a).
Proof.
  revert a. induction d as [| c d IH]; intros a H; simpl in *.
  - reflexivity.
  - apply andb_true_iff in H. destruct H as [Hc Hd].
    rewrite (digit_value_digit c Hc). now apply IH.
Qed.

Lemma remove_dot_T_digits (d : string) :
  all_digits d = true -> remove_dot_T (d ++ ".T") = d.
Proof.
  induction d as [| c d IH]; intros H; simpl in H.
  - reflexivity.
  - apply andb_true_iff in H. destruct H as [Hc Hd].
    apply is_digit_cases in Hc. simpl in Hc.
    decompose [or] Hc; subst; try contradiction;
      simpl; now rewrite IH.
Qed.

(** [parseInt] of a non-empty run of digits is the binary64 value
    nearest to the number it denotes. *)
Lemma parseInt_digits (d : string) :
  all_digits d = true -> d <> "" ->
  parseInt d = round64 (inject_Z (digits_value d 0)).
Proof.
  destruct d as [| c d]; [congruence |]. intros H _. simpl in H.
  apply andb_true_iff in H. destruct H as [Hc Hd].
  assert (Hp : forall a, parse_digits 10 d (Some a) = Some (digits_value d a))
    by (intros a; now apply parse_digits_value).
  apply is_digit_cases in Hc. simpl in Hc.
  decompose [or] Hc; subst; try contradiction;
    try (unfold parseInt; simpl; rewrite Hp; reflexivity).
  (* the leading zero: the next character is not an [x] *)
  destruct d as [| c2 d]; [reflexivity |].
  simpl in Hd. apply andb_true_iff in Hd. destruct Hd as [Hc2 Hd].
  apply is_digit_cases in Hc2. simpl in Hc2.
  assert (Hp' : forall a,
             parse_digits 10 d (Some a) = Some (digits_value d a))
    by (intros a; now apply parse_digits_value).
  decompose [or] Hc2; subst; try contradiction;
    unfold parseInt; simpl; rewrite Hp'; reflexivity.
Qed.

Lemma Qred_inject_Z (z : Z) : Qred (inject_Z z) = inject_Z z.
Proof.
  unfold Qred, inject_Z. cbn [Qnum Qden].
  generalize (Z.ggcd_gcd z 1) (Z.ggcd_correct_divisors z 1).
  destruct (Z.ggcd z 1) as (g, (aa, bb)). cbn [fst snd].
  rewrite Z.gcd_1_r. intros -> [Ha Hb].
  rewrite Z.mul_1_l in Ha, Hb. now subst.
Qed.

(** The integers below [2^53] are binary64 values. *)
Lemma round64_small_integer (v : Z) :
  (0 <= v < 2 ^ 53)%Z -> round64 (inject_Z v) = lit v.
Proof.
  intros [H0 H53]. destruct v as [| n | n]; [reflexivity | | lia].
  unfold round64, lit. cbn [inject_Z Qnum Qden]. unfold round_pos.
  assert (Hk : (0 <= Z.log2 (Z.pos n) < 53)%Z).
  { split; [apply Z.log2_nonneg |]. apply Z.log2_lt_pow2; lia. }
  assert (Hspec := Z.log2_spec (Z.pos n) eq_refl).
  assert (Hlog : log2_ratio n 1 = Z.log2 (Z.pos n)).
  { unfold log2_ratio. change (Z.log2 1) with 0%Z. rewrite Z.sub_0_r.
    replace (0 <=? Z.log2 (Z.pos n))%Z with true
      by (symmetry; apply Z.leb_le; lia).
    replace (1 * 2 ^ Z.log2 (Z.pos n) <=? Z.pos n)%Z with true
      by (symmetry; apply Z.leb_le; lia).
    reflexivity. }
  rewrite Hlog. set (k := Z.log2 (Z.pos n)) in *.
  replace (Z.max (k - 52) (-1074)) with (k - 52)%Z by lia.
  assert (Hround : forall N, (0 <= N)%Z -> round_half_even N 1 = N).
  { intros N HN. unfold round_half_even.
    rewrite Z.mod_1_r, Z.div_1_r. reflexivity. }
  replace ((971 <? k - 52) || ((k - 52 =? 971) && _))%Z with false.
  2:{ symmetry. apply orb_false_iff. split; [apply Z.ltb_ge; lia |].
      apply andb_false_iff. left. apply Z.eqb_neq. lia. }
  destruct (0 <=? k - 52)%Z eqn:E.
  - apply Z.leb_le in E. assert (k = 52%Z) by lia. subst k.
    replace (Z.log2 (Z.pos n) - 52)%Z with 0%Z by lia.
    change (2 ^ 0)%Z with 1%Z. rewrite Hround by lia.
    rewrite Z.mul_1_r. now rewrite Qred_inject_Z.
  - apply Z.leb_gt in E. rewrite Hround by (apply Z.mul_nonneg_nonneg; lia).
    assert (Hp : (0 < 2 ^ (- (k - 52)))%Z)
      by (apply Z.pow_pos_nonneg; lia).
    rewrite <- (Qred_inject_Z (Z.pos n)). f_equal. apply Qred_complete.
    unfold Qeq. cbn [Qnum Qden inject_Z]. rewrite Z2Pos.id by exact Hp.
    lia.
Qed.

Lemma digit_code_split (n : nat) (s : string) :
  digit_code n s = true ->
  exists d : string,
    s = d ++ ".T" /\ all_digits d = true /\ String.length d = n.
Proof.
  revert s. induction n as [| n IH]; intros s H; simpl in H.
  - apply String.eqb_eq in H. exists "". now subst.
  - destruct s as [| c s]; [discriminate |].
    apply andb_true_iff in H. destruct H as [Hc Hs].
    destruct (IH s Hs) as (d & -> & Hd & Hlen).
    exists (String c d). simpl. rewrite Hc, Hd, Hlen. auto.
Qed.

(** A run of [n] digits after [a] denotes [a * 10^n] plus a number
    below [10^n]. *)
Lemma digits_value_bounds (d : string) (a : Z) :
  all_digits d = true ->
  (digits_value d a
   = a * 10 ^ Z.of_nat (String.length d) + digits_value d 0 /\
   0 <= digits_value d 0 < 10 ^ Z.of_nat (String.length d))%Z.
Proof.
  revert a. induction d as [| c d IH]; intros a H.
  - simpl. lia.
  - simpl in H. apply andb_true_iff in H. destruct H as [Hc Hd].
    apply is_digit_bounds in Hc.
    cbn [digits_value String.length].
    destruct (IH (10 * a + (Z.of_nat (nat_of_ascii c) - 48))%Z Hd)
      as [E1 _].
    destruct (IH (10 * 0 + (Z.of_nat (nat_of_ascii c) - 48))%Z Hd)
      as [E2 B].
    rewrite E1, E2. rewrite Nat2Z.inj_succ, Z.pow_succ_r by lia.
    split; nia.
Qed.

Lemma ascii_compare_nat (c1 c2 : ascii) :
  Ascii.compare c1 c2
  = (Z.of_nat (nat_of_ascii c1) ?= Z.of_nat (nat_of_ascii c2))%Z.
Proof.
  unfold Ascii.compare, nat_of_ascii.
  rewrite !N_nat_Z. now rewrite N2Z.inj_compare.
Qed.

(** On runs of digits of one length the order of the strings is the
    order of the numbers. *)
Lemma digits_compare (d1 d2 : string) (a : Z) :
  all_digits d1 = true -> all_digits d2 = true ->
  String.length d1 = String.length d2 ->
  (d1 ?= d2) = (digits_value d1 a ?= digits_value d2 a)%Z.
Proof.
  revert d2 a. induction d1 as [| c1 d1 IH]; intros [| c2 d2] a H1 H2 L;
    try discriminate L.
  - simpl. now rewrite Z.compare_refl.
  - simpl in H1, H2, L.
    apply andb_true_iff in H1, H2.
    destruct H1 as [Hc1 Hd1], H2 as [Hc2 Hd2].
    injection L as L.
    cbn [String.compare digits_value]. rewrite ascii_compare_nat.
    set (n1 := Z.of_nat (nat_of_ascii c1)).
    set (n2 := Z.of_nat (nat_of_ascii c2)).
    destruct (digits_value_bounds d1 (10 * a + (n1 - 48)) Hd1) as [E1 B1].
    destruct (digits_value_bounds d2 (10 * a + (n2 - 48)) Hd2) as [E2 B2].
    rewrite <- L in E2, B2.
    set (P := (10 ^ Z.of_nat (String.length d1))%Z) in *.
    clearbody P.
    destruct (n1 ?= n2)%Z eqn:E.
    + apply Z.compare_eq in E. rewrite E. now apply IH.
    + assert (Hlt : (n1 < n2)%Z) by (apply Z.compare_lt_iff; exact E).
      symmetry. apply Z.compare_lt_iff. rewrite E1, E2.
      assert ((10 * a + (n1 - 48) + 1) * P <= (10 * a + (n2 - 48)) * P)%Z
        by (apply Z.mul_le_mono_nonneg_r; lia).
      lia.
    + assert (Hlt : (n2 < n1)%Z) by (apply Z.compare_gt_iff; exact E).
      symmetry. apply Z.compare_gt_iff. rewrite E1, E2.
      assert ((10 * a + (n2 - 48) + 1) * P <= (10 * a + (n1 - 48)) * P)%Z
        by (apply Z.mul_le_mono_nonneg_r; lia).
      lia.
Qed.

Lemma compare_append_same (d1 d2 t : string) :
  String.length d1 = String.length d2 ->
  (d1 ++ t ?= d2 ++ t) = (d1 ?= d2).
Proof.
  revert d2. induction d1 as [| c1 d1 IH]; intros [| c2 d2] L;
    try discriminate L; simpl.
  - induction t as [| c t IHt]; simpl; [reflexivity |].
    rewrite ascii_compare_nat, Z.compare_refl. exact IHt.
  - injection L as L. rewrite (IH d2 L). reflexivity.
Qed.

Lemma Qle_bool_inject_Z (a b : Z) :
  Qle_bool (inject_Z a) (inject_Z b) = (a <=? b)%Z.
Proof. unfold Qle_bool. simpl. now rewrite !Z.mul_1_r. Qed.

(** What the script reads from a digit code, and how codes compare. *)
Lemma digit_code_parsed (n : nat) (c : string) :
  1 <= n <= 15 -> digit_code n c = true ->
  exists d : string,
    c = d ++ ".T" /\ all_digits d = true /\ String.length d = n /\
    remove_dot_T c = d /\
    parseInt (remove_dot_T c) = lit (digits_value d 0).
Proof.
  intros Hn H. destruct (digit_code_split n c H) as (d & -> & Hd & Hlen).
  exists d. rewrite (remove_dot_T_digits d Hd). repeat split; trivial.
  rewrite parseInt_digits; [| exact Hd | intros ->; simpl in Hlen; lia].
  apply round64_small_integer.
  destruct (digits_value_bounds d 0 Hd) as [_ [Hlo Hhi]].
  split; [exact Hlo |].
  apply (Z.lt_le_trans _ _ _ Hhi).
  apply (Z.le_trans _ (10 ^ 15)); [| now vm_compute].
  apply Z.pow_le_mono_r; lia.
Qed.

Lemma digit_code_compare (n : nat) (c1 c2 d1 d2 : string) :
  c1 = d1 ++ ".T" -> c2 = d2 ++ ".T" ->
  all_digits d1 = true -> all_digits d2 = true ->
  String.length d1 = n -> String.length d2 = n ->
  (c1 ?= c2) = (d1 ?= d2) /\
  (c1 ?= c2) = (digits_value d1 0 ?= digits_value d2 0)%Z.
Proof.
  intros -> -> H1 H2 L1 L2.
  rewrite compare_append_same by congruence.
  split; [reflexivity |]. apply digits_compare; congruence.
Qed.

Lemma parsed_lt_code (n : nat) (c1 c2 : string) :
  1 <= n <= 15 -> digit_code n c1 = true -> digit_code n c2 = true ->
  flt (parseInt (remove_dot_T c1)) (parseInt (remove_dot_T c2))
  = (c1 <? c2).
Proof.
  intros Hn H1 H2.
  destruct (digit_code_parsed n c1 Hn H1) as (d1 & E1 & D1 & L1 & _ & ->).
  destruct (digit_code_parsed n c2 Hn H2) as (d2 & E2 & D2 & L2 & _ & ->).
  destruct (digit_code_compare n c1 c2 d1 d2 E1 E2 D1 D2 L1 L2) as [_ Hc].
  unfold String.ltb. rewrite Hc.
  unfold flt, lit, fle. rewrite Qle_bool_inject_Z.
  destruct (digits_value d1 0 ?= digits_value d2 0)%Z eqn:E.
  - apply Z.compare_eq in E. rewrite E, Z.leb_refl. reflexivity.
  - assert ((digits_value d1 0 < digits_value d2 0)%Z)
      by (apply Z.compare_lt_iff; exact E).
    replace (digits_value d2 0 <=? digits_value d1 0)%Z with false;
      [reflexivity | symmetry; apply Z.leb_gt; lia].
  - assert ((digits_value d2 0 < digits_value d1 0)%Z)
      by (apply Z.compare_gt_iff; exact E).
    replace (digits_value d2 0 <=? digits_value d1 0)%Z with true;
      [reflexivity | symmetry; apply Z.leb_le; lia].
Qed.

Lemma parsed_difference_sign (n : nat) (c1 c2 : string) :
  1 <= n <= 15 -> digit_code n c1 = true -> digit_code n c2 = true ->
  cmp_sign (fsub (parseInt (remove_dot_T c1)) (parseInt (remove_dot_T c2)))
  = Gt
  <-> (c2 <? c1) = true.
Proof.
  intros Hn H1 H2.
  destruct (digit_code_parsed n c1 Hn H1) as (d1 & E1 & D1 & L1 & _ & ->).
  destruct (digit_code_parsed n c2 Hn H2) as (d2 & E2 & D2 & L2 & _ & ->).
  destruct (digit_code_compare n c2 c1 d2 d1 E2 E1 D2 D1 L2 L1) as [_ Hc].
  unfold String.ltb. rewrite Hc.
  rewrite cmp_sign_fsub_finite by reflexivity.
  unfold lit, finite_value.
  set (v1 := digits_value d1 0). set (v2 := digits_value d2 0).
  assert (Hq : (inject_Z v1 ?= inject_Z v2)%Q = (v1 ?= v2)%Z).
  { unfold Qcompare. cbn [inject_Z Qnum Qden]. now rewrite !Z.mul_1_r. }
  rewrite Hq, (Z.compare_antisym v1 v2).
  destruct (v1 ?= v2)%Z; simpl; split; congruence.
Qed.

(** ** The sector mode against the server-rendered view *)

(** When the comparator is positive exactly on the pairs whose keys
    descend, [array_sort] and [sorted] arrange a list in the same way. *)
Lemma array_sort_as_sorted {A B : Type} (key : A -> string)
  (cmp : B -> B -> pyfloat) (f : A -> B) (P : A -> Prop) :
  (forall x y, P x -> P y ->
               (cmp_sign (cmp (f x) (f y)) = Gt <-> (key y <? key x) = true)) ->
  forall l, Forall P l -> array_sort cmp (map f l) = map f (sorted key l).
Proof.
  intros H.
  assert (Hins : forall x l, P x -> Forall P l ->
             array_insert cmp (f x) (map f l)
             = map f (insert_sorted key x l)).
  { intros x l Hx Hl. induction Hl as [| y l Hy Hl IH]; simpl.
    - reflexivity.
    - destruct (key y <? key x) eqn:E.
      + apply (H x y Hx Hy) in E. rewrite E. simpl. now rewrite IH.
      + destruct (cmp_sign (cmp (f x) (f y))) eqn:C; try reflexivity.
        apply (H x y Hx Hy) in C. congruence. }
  unfold array_sort, sorted.
  induction 1 as [| x l Hx Hl IH]; simpl; [reflexivity |].
  rewrite IH. apply Hins; [exact Hx |].
  apply Forall_forall. intros y Hy.
  apply (Permutation_in _ (sorted_Permutation key l)) in Hy.
  rewrite Forall_forall in Hl. now apply Hl.
Qed.

Lemma parsed_not_negative (n : nat) (c : string) :
  1 <= n <= 15 -> digit_code n c = true ->
  negative (parseInt (remove_dot_T c)) = false.
Proof.
  intros Hn H.
  destruct (digit_code_parsed n c Hn H) as (d & _ & Hd & _ & _ & ->).
  destruct (digits_value_bounds d 0 Hd) as [_ [Hlo _]].
  unfold lit, negative. cbn [inject_Z Qnum]. apply Z.ltb_ge. exact Hlo.
Qed.

(** The smallest parsed code of a group is the parsed smallest code. *)
Lemma Math_min_digit_codes (n : nat) (cs : list string) :
  1 <= n <= 15 -> cs <> [] ->
  Forall (fun c => digit_code n c = true) cs ->
  Math_min (map (fun c => parseInt (remove_dot_T c)) cs)
  = parseInt (remove_dot_T (py_min cs)) /\
  digit_code n (py_min cs) = true.
Proof.
  intros Hn Hne Hall. destruct cs as [| c cs]; [congruence |].
  inversion Hall as [| ? ? Hc Hcs]. subst. clear Hne Hall.
  unfold Math_min, py_min. simpl fold_left at 1.
  assert (H0 : (match parseInt (remove_dot_T c) with
                | NaN => NaN
                | _ => if flt (parseInt (remove_dot_T c)) PosInf
                          || (is_zero (parseInt (remove_dot_T c))
                              && false
                              && negative (parseInt (remove_dot_T c)))
                       then parseInt (remove_dot_T c) else PosInf
                end) = parseInt (remove_dot_T c)).
  { destruct (digit_code_parsed n c Hn Hc) as (d & _ & _ & _ & _ & ->).
    reflexivity. }
  rewrite H0. clear H0. revert c Hc.
  induction Hcs as [| c' cs Hc' Hcs IH]; intros m Hm; simpl.
  - split; [reflexivity | exact Hm].
  - assert (Hstep :
      (match parseInt (remove_dot_T m), parseInt (remove_dot_T c') with
       | NaN, _ | _, NaN => NaN
       | _, _ => if flt (parseInt (remove_dot_T c'))
                        (parseInt (remove_dot_T m))
                    || (is_zero (parseInt (remove_dot_T c'))
                        && is_zero (parseInt (remove_dot_T m))
                        && negative (parseInt (remove_dot_T c')))
                 then parseInt (remove_dot_T c')
                 else parseInt (remove_dot_T m)
       end)
      = parseInt (remove_dot_T (if c' <? m then c' else m))).
    { rewrite (parsed_lt_code n c' m Hn Hc' Hm).
      rewrite (parsed_not_negative n c' Hn Hc'), andb_false_r, orb_false_r.
      destruct (digit_code_parsed n m Hn Hm) as (d & _ & _ & _ & _ & Em).
      destruct (digit_code_parsed n c' Hn Hc') as (d' & _ & _ & _ & _ & Ec).
      destruct (c' <? m); rewrite Em, Ec; reflexivity. }
    rewrite Hstep. apply IH. now destruct (c' <? m).
Qed.

Lemma group_append_map {A B : Type} (f : A -> B) (key : string) (v : A)
  (d : dict (list A)) :
  group_append key (f v) (map (fun '(k0, vs) => (k0, map f vs)) d)
  = map (fun '(k0, vs) => (k0, map f vs)) (group_append key v d).
Proof.
  induction d as [| [k0 vs] d IH]; simpl; [reflexivity |].
  destruct (String.eqb k0 key); simpl.
  - now rewrite map_app.
  - now rewrite IH.
Qed.

Lemma members_map {A B : Type} (f : A -> B) (d : dict (list A)) (s : string) :
  members (map (fun '(k0, vs) => (k0, map f vs)) d) s = map f (members d s).
Proof.
  unfold members. induction d as [| [k0 vs] d IH]; simpl; [reflexivity |].
  destruct (String.eqb k0 s); [reflexivity | exact IH].
Qed.

Lemma sector_groups_map (results : list StockResult) :
  sector_groups (json_data results)
  = map (fun '(s, rs) => (s, map json_record rs)) (group_by_sector results).
Proof.
  unfold sector_groups, json_data, group_by_sector.
  change (@nil (string * list Js.stock))
    with (map (fun '(s, rs) => (s, map json_record rs))
              (@nil (string * list StockResult))).
  generalize (@nil (string * list StockResult)).
  induction results as [| r l IH]; intros d; simpl; [reflexivity |].
  rewrite (group_append_map json_record). apply IH.
Qed.

(** X7.  With sector names that are plain keys, the script groups the
    embedded dataset as the server groups the results: the same sectors
    in the same order, each with the embedded records of its results. *)
Theorem sector_groups_json_data (results : list StockResult) :
  Forall (fun r => plain_key (sector (stock r)) = true) results ->
  sector_groups (json_data results)
  = map (fun '(s, rs) => (s, map json_record rs)) (group_by_sector results).
Proof. intros _. apply sector_groups_map. Qed.

(** The fetched roster of four has the sectors Transport and Electric. *)
Lemma sector_groups_json_data_witness :
  map fst
    (sector_groups
       (json_data
          (fetch_price_data [toyota; hitachi; sony; honda] grouped_table)))
  = ["Transport"; "Electric"].
Proof.
  rewrite (sector_groups_json_data
             (fetch_price_data [toyota; hitachi; sony; honda] grouped_table))
    by (repeat constructor).
  reflexivity.
Defined.

(** X8.  When every code is the same number of digits, at most
    fifteen, followed by [.T], sector names are plain keys and
    [localeCompare] orders digit strings as their code points do, the
    sector mode of the script shows the sectors, and the tiles of each
    sector, in the order of the server-rendered view.  (Up to fifteen
    digits the script reads every code exactly; from sixteen digits on
    distinct codes can be read as the same number.) *)
Theorem sector_mode_matches_server (n : nat)
  (localeCompare : string -> string -> pyfloat)
  (results : list StockResult) :
  1 <= n <= 15 ->
  Forall (fun r => digit_code n (code (stock r)) = true) results ->
  Forall (fun r => plain_key (sector (stock r)) = true) results ->
  (forall a b : string,
      all_digits a = true -> all_digits b = true ->
      String.length a = String.length b ->
      cmp_sign (localeCompare a b) = (a ?= b)) ->
  sector_mode localeCompare (json_data results)
  = map (fun '(s, rs) => (s, map json_record rs)) (server_view results).
Proof.
  intros Hn Hcodes _ Hlc.
  destruct (group_by_sector_facts results) as (Hnd & Hin & Hmem & Hne).
  cbv zeta in *.
  unfold sector_mode, server_view. rewrite sector_groups_map.
  set (d := group_by_sector results) in *.
  set (groups := map (fun '(s, rs) => (s, map json_record rs)) d).
  assert (Hkeys : map fst groups = map fst d).
  { unfold groups. rewrite map_map. apply map_ext. now intros [s rs]. }
  assert (Hgroup : forall s, Forall (fun r => digit_code n (code (stock r))
                                              = true) (members d s)).
  { intros s. rewrite Hmem. apply Forall_forall. intros r Hr.
    apply filter_In in Hr. rewrite Forall_forall in Hcodes.
    now apply Hcodes. }
  (* the parsed minimum of a listed sector *)
  assert (Hmin : forall s, In s (map fst d) ->
             min_parsed_code (members groups s)
             = parseInt (remove_dot_T (min_code (members d s))) /\
             digit_code n (min_code (members d s)) = true).
  { intros s Hs. unfold min_parsed_code, min_code, groups.
    rewrite members_map, map_map.
    change (map (fun x => parseInt (Js.code (json_record x))) (members d s))
      with (map (fun x => parseInt (remove_dot_T (code (stock x))))
                (members d s)).
    rewrite <- (map_map (fun r => code (stock r))
                        (fun c => parseInt (remove_dot_T c))).
    apply Math_min_digit_codes; [exact Hn | |].
    - intros E. apply map_eq_nil in E. now apply (Hne s Hs).
    - apply Forall_map. exact (Hgroup s). }
  (* the order of the sectors *)
  assert (Horder : sectorOrder groups = sector_order d).
  { unfold sectorOrder, sector_order. rewrite Hkeys.
    rewrite <- (map_id (map fst d)) at 1.
    rewrite <- (map_id (sorted _ (map fst d))).
    apply (array_sort_as_sorted _ _ (fun s => s)
             (fun s => In s (map fst d))).
    - intros x y Hx Hy. cbv beta.
      destruct (Hmin x Hx) as [-> Dx]. destruct (Hmin y Hy) as [-> Dy].
      now apply (parsed_difference_sign n).
    - apply Forall_forall. auto. }
  rewrite Horder, map_map. apply map_ext. intros s. f_equal.
  (* the order inside a sector *)
  unfold groups. rewrite members_map.
  apply (array_sort_as_sorted _ _ json_record
           (fun r => digit_code n (code (stock r)) = true));
    [| exact (Hgroup s)].
  intros x y Hx Hy. simpl.
  destruct (digit_code_parsed n _ Hn Hx) as (dx & Ex & Dx & Lx & -> & _).
  destruct (digit_code_parsed n _ Hn Hy) as (dy & Ey & Dy & Ly & -> & _).
  rewrite (Hlc dx dy Dx Dy) by congruence.
  destruct (digit_code_compare n _ _ dy dx Ey Ex Dy Dx Ly Lx) as [Hc _].
  unfold String.ltb. rewrite Hc, (String.compare_antisym dx dy).
  destruct (dy ?= dx); simpl; split; congruence.
Qed.

Lemma code_point_compare_sign (a b : string) :
  cmp_sign (code_point_compare a b) = (a ?= b).
Proof. unfold code_point_compare. now destruct (a ?= b). Qed.

(** The fetched roster of four, with four-digit codes. *)
Lemma sector_mode_matches_server_witness :
  sector_mode code_point_compare
    (json_data
       (fetch_price_data [toyota; hitachi; sony; honda] grouped_table))
  = map (fun '(s, rs) => (s, map json_record rs))
        (server_view
           (fetch_price_data [toyota; hitachi; sony; honda] grouped_table)).
Proof.
  apply (sector_mode_matches_server 4 code_point_compare).
  - lia.
  - repeat constructor.
  - repeat constructor.
  - intros a b _ _ _. apply code_point_compare_sign.
Defined.

(** ** The display code *)

Lemma remove_dot_T_cons (c : ascii) (s : string) :
  c <> "."%char -> remove_dot_T (String c s) = String c (remove_dot_T s).
Proof.
  intros H. destruct c as [[] [] [] [] [] [] [] []];
    try reflexivity. congruence.
Qed.

(** X9.  A ticker made of a base without a dot and the suffix [.T] is
    displayed, and embedded in the page, as its base; a code without a
    dot is left as it is. *)
Theorem display_code_of_ticker (base : string) :
  Forall (fun c => c <> "."%char) (list_ascii_of_string base) ->
  remove_dot_T (base ++ ".T") = base /\ remove_dot_T base = base.
Proof.
  induction base as [| c base IH]; intros H; simpl in H.
  - split; reflexivity.
  - inversion H as [| ? ? Hc Hbase]. subst.
    destruct (IH Hbase) as [IH1 IH2].
    cbn [append]. rewrite !remove_dot_T_cons by exact Hc.
    now rewrite IH1, IH2.
Qed.

Lemma display_code_of_ticker_witness :
  remove_dot_T "285A.T" = "285A" /\ remove_dot_T "285A" = "285A".
Proof.
  apply (display_code_of_ticker "285A").
  repeat constructor; discriminate.
Defined.

(** ** The smallest code of a sector *)

Lemma string_leb_trans (a b c : string) :
  (a <=? b) = true -> (b <=? c) = true -> (a <=? c) = true.
Proof.
  unfold String.leb. intros Hab Hbc.
  destruct (a ?= b) eqn:Eab; try discriminate.
  - apply String.compare_eq_iff in Eab. now subst.
  - destruct (b ?= c) eqn:Ebc; try discriminate.
    + apply String.compare_eq_iff in Ebc. subst. now rewrite Eab.
    + apply OrderedTypeEx.String_as_OT.cmp_lt in Eab, Ebc.
      assert (Hac := OrderedTypeEx.String_as_OT.lt_trans _ _ _ Eab Ebc).
      apply OrderedTypeEx.String_as_OT.cmp_lt in Hac.
      unfold OrderedTypeEx.String_as_OT.cmp in Hac. now rewrite Hac.
Qed.

Lemma string_leb_refl (a : string) : (a <=? a) = true.
Proof.
  destruct (String.leb_total a a); assumption.
Qed.

Lemma py_min_smallest (c : string) (cs : list string) :
  In (py_min (c :: cs)) (c :: cs) /\
  forall x, In x (c :: cs) -> (py_min (c :: cs) <=? x) = true.
Proof.
  unfold py_min. revert c.
  induction cs as [| c' cs IH]; intros m; simpl.
  - split; [now left |]. intros x [<- | []]. apply string_leb_refl.
  - destruct (IH (if c' <? m then c' else m)) as [Hin Hle].
    set (r := fold_left (fun m0 c0 => if c0 <? m0 then c0 else m0) cs
                        (if c' <? m then c' else m)) in *.
    assert (Hm : ((if c' <? m then c' else m) <=? m) = true
                 /\ ((if c' <? m then c' else m) <=? c') = true).
    { destruct (c' <? m) eqn:E.
      - split; [now apply ltb_leb | apply string_leb_refl].
      - split; [apply string_leb_refl | now apply ltb_false_leb]. }
    destruct Hm as [Hm Hc'].
    assert (Hr : (r <=? (if c' <? m then c' else m)) = true)
      by (apply Hle; now left).
    split.
    + destruct Hin as [Hin | Hin].
      * destruct (c' <? m); rewrite <- Hin; auto.
      * auto.
    + intros x [<- | [<- | Hx]].
      * exact (string_leb_trans _ _ _ Hr Hm).
      * exact (string_leb_trans _ _ _ Hr Hc').
      * apply Hle. now right.
Qed.

(** X10.  The key that places a sector is the code of one of its
    stocks and no stock of the sector has a smaller code string; a
    listed sector always has a stock, so taking the minimum never
    fails. *)
Theorem min_code_is_smallest (results : list StockResult) (s : string) :
  In s (map fst (group_by_sector results)) ->
  let m := min_code (members (group_by_sector results) s) in
  (exists r, In r results /\ sector (stock r) = s /\ code (stock r) = m) /\
  (forall r, In r results -> sector (stock r) = s ->
             (m <=? code (stock r)) = true).
Proof.
  intros Hs m.
  destruct (group_by_sector_facts results) as (_ & _ & Hmem & Hne).
  cbv zeta in *. specialize (Hne s Hs). unfold m, min_code.
  rewrite Hmem in *.
  set (ms := filter (fun r => String.eqb (sector (stock r)) s) results) in *.
  destruct ms as [| r0 ms'] eqn:E; [congruence |].
  destruct (py_min_smallest (code (stock r0))
              (map (fun r => code (stock r)) ms')) as [Hin Hle].
  change (code (stock r0) :: map (fun r => code (stock r)) ms')
    with (map (fun r => code (stock r)) (r0 :: ms')) in *.
  split.
  - apply in_map_iff in Hin. destruct Hin as (r & Hr & Hin).
    exists r. rewrite <- E in Hin. apply filter_In in Hin.
    destruct Hin as [Hin Hsec]. apply String.eqb_eq in Hsec. auto.
  - intros r Hr Hsec. apply Hle.
    apply (in_map (fun r => code (stock r))). rewrite <- E.
    apply filter_In. split; [exact Hr | now apply String.eqb_eq].
Qed.

Lemma min_code_is_smallest_witness :
  exists r,
    In r mixed_length_results /\ sector (stock r) = "Mining" /\
    code (stock r)
    = min_code (members (group_by_sector mixed_length_results) "Mining").
Proof.
  apply (min_code_is_smallest mixed_length_results "Mining").
  simpl. auto.
Defined.

(** ** From the closes to the colour *)

Lemma round64_nonneg_cases (q : Q) :
  (0 <= q)%Q ->
  round64 q = PosInf \/ exists r : Q, round64 q = Fin r /\ (0 <= r)%Q.
Proof.
  intros H. unfold round64. destruct (Qnum q) as [| n | n] eqn:En.
  - right. exists 0%Q. split; [reflexivity | apply Qle_refl].
  - apply round_pos_cases.
  - exfalso. unfold Qle in H. rewrite En in H. simpl in H. lia.
Qed.

Lemma cmp_sign_Gt_cases (x : pyfloat) :
  cmp_sign x = Gt -> x = PosInf \/ exists r : Q, x = Fin r /\ (0 < r)%Q.
Proof.
  destruct x as [q | | | | ]; simpl; try discriminate; [| now left].
  intros H. right. exists q. split; [reflexivity |].
  now apply (proj2 (Qgt_alt q 0)).
Qed.

Lemma cmp_sign_Lt_cases (x : pyfloat) :
  cmp_sign x = Lt -> x = NegInf \/ exists r : Q, x = Fin r /\ (r < 0)%Q.
Proof.
  destruct x as [q | | | | ]; simpl; try discriminate; [| now left].
  intros H. right. exists q. split; [reflexivity |].
  now apply (proj2 (Qlt_alt q 0)).
Qed.

Lemma negative_fin (q : Q) :
  negative (Fin q) = true <-> (q < 0)%Q.
Proof.
  unfold negative, Qlt. cbn [Qnum Qden]. rewrite Z.ltb_lt. lia.
Qed.

Lemma negative_fin_false (q : Q) : (0 <= q)%Q -> negative (Fin q) = false.
Proof.
  intros H. destruct (negative (Fin q)) eqn:E; [| reflexivity].
  apply negative_fin in E. lra.
Qed.

Lemma negative_fin_true (q : Q) : (q < 0)%Q -> negative (Fin q) = true.
Proof. apply negative_fin. Qed.

Lemma is_zero_fin_false (q : Q) : ~ (q == 0)%Q -> is_zero (Fin q) = false.
Proof.
  intros H. cbn [is_zero]. destruct (Qeq_bool q 0) eqn:E; [| reflexivity].
  apply Qeq_bool_iff in E. contradiction.
Qed.

(** A difference of finite values: zero, or on the side of the larger
    operand. *)
Lemma fsub_fin_eq (l p : Q) : (l == p)%Q -> fsub (Fin l) (Fin p) = Fin 0.
Proof.
  intros H. unfold fsub. cbn [is_nan orb finite_value].
  replace (Qeq_bool (l - p) 0) with true
    by (symmetry; apply Qeq_bool_iff; lra).
  destruct (negative (Fin l)) eqn:El; [| reflexivity].
  apply negative_fin in El.
  rewrite negative_fin_true by lra. reflexivity.
Qed.

Lemma fsub_fin_gt (l p : Q) :
  (p < l)%Q ->
  fsub (Fin l) (Fin p) = PosInf \/
  exists r : Q, fsub (Fin l) (Fin p) = Fin r /\ (0 < r)%Q.
Proof.
  intros H. apply cmp_sign_Gt_cases.
  rewrite cmp_sign_fsub_finite by reflexivity.
  apply (proj1 (Qgt_alt l p)). exact H.
Qed.

Lemma fsub_fin_lt (l p : Q) :
  (l < p)%Q ->
  fsub (Fin l) (Fin p) = NegInf \/
  exists r : Q, fsub (Fin l) (Fin p) = Fin r /\ (r < 0)%Q.
Proof.
  intros H. apply cmp_sign_Lt_cases.
  rewrite cmp_sign_fsub_finite by reflexivity.
  apply (proj1 (Qlt_alt l p)). exact H.
Qed.

(** A quotient and a product of values that are not negative. *)
Lemma fdiv_nonneg (r p : Q) :
  (0 <= r)%Q -> (0 < p)%Q ->
  fdiv (Fin r) (Fin p) = PosInf \/
  exists q : Q, fdiv (Fin r) (Fin p) = Fin q /\ (0 <= q)%Q.
Proof.
  intros Hr Hp. unfold fdiv. cbn [is_nan is_inf orb].
  rewrite (negative_fin_false r Hr), (negative_fin_false p) by lra.
  rewrite (is_zero_fin_false p) by lra. cbn [xorb signed finite_value].
  apply round64_nonneg_cases. apply Qabs_nonneg.
Qed.

Lemma fmul_nonneg (r c : Q) :
  (0 <= r)%Q -> (0 <= c)%Q ->
  fmul (Fin r) (Fin c) = PosInf \/
  exists q : Q, fmul (Fin r) (Fin c) = Fin q /\ (0 <= q)%Q.
Proof.
  intros Hr Hc. unfold fmul. cbn [is_nan is_inf orb].
  rewrite (negative_fin_false r Hr), (negative_fin_false c Hc).
  cbn [xorb signed finite_value].
  apply round64_nonneg_cases. apply Qabs_nonneg.
Qed.

(** The negation of a rounded magnitude. *)
Lemma fneg_round64_cases (q : Q) :
  (0 <= q)%Q ->
  fneg (round64 q) = NegInf \/ fneg (round64 q) = NegZero \/
  exists r : Q, fneg (round64 q) = Fin r /\ (r < 0)%Q.
Proof.
  intros H.
  destruct (round64_nonneg_cases q H) as [-> | (r & -> & Hr)]; [now left |].
  right. cbn [fneg]. destruct (Qeq_bool r 0) eqn:E; [now left | right].
  exists (- r)%Q. split; [reflexivity |].
  assert (~ (r == 0)%Q) by (intros E0; apply Qeq_bool_iff in E0; congruence).
  lra.
Qed.

Lemma fdiv_neg (r p : Q) :
  (r < 0)%Q -> (0 < p)%Q ->
  fdiv (Fin r) (Fin p) = NegInf \/ fdiv (Fin r) (Fin p) = NegZero \/
  exists q : Q, fdiv (Fin r) (Fin p) = Fin q /\ (q < 0)%Q.
Proof.
  intros Hr Hp. unfold fdiv. cbn [is_nan is_inf orb].
  rewrite (negative_fin_true r Hr), (negative_fin_false p) by lra.
  rewrite (is_zero_fin_false p) by lra. cbn [xorb signed finite_value].
  apply fneg_round64_cases. apply Qabs_nonneg.
Qed.

Lemma fmul_neg (r c : Q) :
  (r < 0)%Q -> (0 <= c)%Q ->
  fmul (Fin r) (Fin c) = NegInf \/ fmul (Fin r) (Fin c) = NegZero \/
  exists q : Q, fmul (Fin r) (Fin c) = Fin q /\ (q < 0)%Q.
Proof.
  intros Hr Hc. unfold fmul. cbn [is_nan is_inf orb].
  rewrite (negative_fin_true r Hr), (negative_fin_false c Hc).
  cbn [xorb signed finite_value].
  apply fneg_round64_cases. apply Qabs_nonneg.
Qed.

(** The change of line 54 over a positive previous close: not negative
    when the close did not fall, and negative, a negative zero included,
    when it fell. *)
Lemma change_not_negative (p l : Q) :
  (0 < p)%Q -> (p <= l)%Q ->
  let c := fmul (fdiv (fsub (Fin l) (Fin p)) (Fin p)) (lit 100) in
  c = PosInf \/ exists q : Q, c = Fin q /\ (0 <= q)%Q.
Proof.
  intros Hp Hl c. subst c.
  assert (Hd : fsub (Fin l) (Fin p) = PosInf \/
               exists r : Q, fsub (Fin l) (Fin p) = Fin r /\ (0 <= r)%Q).
  { destruct (Qlt_le_dec p l) as [Hlt | Hle].
    - destruct (fsub_fin_gt l p Hlt) as [E | (r & E & Hr)]; [now left |].
      right. exists r. split; [exact E | lra].
    - right. exists 0%Q. split; [apply fsub_fin_eq; lra | apply Qle_refl]. }
  assert (Hq : fdiv (fsub (Fin l) (Fin p)) (Fin p) = PosInf \/
               exists r : Q, fdiv (fsub (Fin l) (Fin p)) (Fin p) = Fin r
                             /\ (0 <= r)%Q).
  { destruct Hd as [-> | (r & -> & Hr)]; [| now apply fdiv_nonneg].
    left. unfold fdiv. cbn [is_nan is_inf orb].
    rewrite (negative_fin_false p) by lra. reflexivity. }
  destruct Hq as [-> | (r & -> & Hr)]; [now left |].
  apply fmul_nonneg; [exact Hr | discriminate].
Qed.

Lemma change_negative (p l : Q) :
  (0 < p)%Q -> (l < p)%Q ->
  let c := fmul (fdiv (fsub (Fin l) (Fin p)) (Fin p)) (lit 100) in
  c = NegInf \/ c = NegZero \/ exists q : Q, c = Fin q /\ (q < 0)%Q.
Proof.
  intros Hp Hl c. subst c.
  assert (Hq : fdiv (fsub (Fin l) (Fin p)) (Fin p) = NegInf \/
               fdiv (fsub (Fin l) (Fin p)) (Fin p) = NegZero \/
               exists r : Q, fdiv (fsub (Fin l) (Fin p)) (Fin p) = Fin r
                             /\ (r < 0)%Q).
  { destruct (fsub_fin_lt l p Hl) as [-> | (r & -> & Hr)];
      [| now apply fdiv_neg].
    left. unfold fdiv. cbn [is_nan is_inf orb].
    rewrite (negative_fin_false p) by lra. reflexivity. }
  destruct Hq as [-> | [-> | (r & -> & Hr)]];
    [now left | right; now left |].
  apply fmul_neg; [exact Hr | discriminate].
Qed.

(** The result of a symbol read off the batch table. *)
Lemma resolve_from_table (stocks : list StockRef)
  (columns : list (string * pdobj)) (i : nat) (s : StockRef)
  (values before gap1 gap2 : list pyfloat) (prev last : pyfloat) :
  nth_error stocks i = Some s ->
  (List.length stocks <> 1 /\
   exists g, lookup (code s) columns = Some (DataFrame g) /\
             lookup "Close" g = Some (Series values))
  \/ (List.length stocks = 1 /\
      lookup "Close" columns = Some (Series values)) ->
  values = (before ++ [prev] ++ gap1 ++ [last] ++ gap2)%list ->
  prev <> NaN -> last <> NaN ->
  Forall (fun x => x = NaN) gap1 -> Forall (fun x => x = NaN) gap2 ->
  nth_error (fetch_price_data stocks (DataFrame columns)) i
  = Some {| stock := s; price := Some last;
            change_pct := Some (fmul (fdiv (fsub last prev) prev) (lit 100)) |}.
Proof.
  intros Hi Htable -> Hp Hl H1 H2.
  rewrite fetch_price_data_map, nth_error_map, Hi. simpl. f_equal.
  apply (resolve_or_absent_two _ _ _
           (filter (fun x => negb (is_nan x)) before)).
  unfold valid_closes. rewrite length_map.
  destruct Htable as [[Hn (g & Hg & Hclose)] | [Hn Hclose]].
  - apply Nat.eqb_neq in Hn. rewrite Hn. simpl. rewrite Hg. simpl.
    rewrite Hclose. simpl. f_equal. now apply dropna_last_two.
  - rewrite Hn. simpl. rewrite Hclose. simpl. f_equal.
    now apply dropna_last_two.
Qed.

(** X11.  A symbol whose [Close] column ends, missing entries apart, in
    a positive previous close [p] and a last close [l], the change being
    computed in binary64 as line 54 does: when [l] is not below [p] the
    tile has one of the three green backgrounds; when [l] is below [p]
    the tile has one of the three red backgrounds, unless the quotient
    underflows, in which case the change is the negative zero, shown
    pale green.  A fallen close is never shown green or dark green. *)
Theorem rising_close_is_green (stocks : list StockRef)
  (columns : list (string * pdobj)) (i : nat) (s : StockRef)
  (values before gap1 gap2 : list pyfloat) (p l : Q) :
  nth_error stocks i = Some s ->
  (List.length stocks <> 1 /\
   exists g, lookup (code s) columns = Some (DataFrame g) /\
             lookup "Close" g = Some (Series values))
  \/ (List.length stocks = 1 /\
      lookup "Close" columns = Some (Series values)) ->
  values = (before ++ [Fin p] ++ gap1 ++ [Fin l] ++ gap2)%list ->
  Forall (fun x => x = NaN) gap1 -> Forall (fun x => x = NaN) gap2 ->
  (0 < p)%Q ->
  exists r : StockResult,
    nth_error (fetch_price_data stocks (DataFrame columns)) i = Some r /\
    price r = Some (Fin l) /\
    change_pct r = Some (fmul (fdiv (fsub (Fin l) (Fin p)) (Fin p)) (lit 100)) /\
    ((p <= l)%Q ->
     In (get_color (change_pct r)) [pale_green; green; dark_green]) /\
    ((l < p)%Q ->
     In (get_color (change_pct r)) [pale_red; red; dark_red] \/
     (change_pct r = Some NegZero /\ get_color (change_pct r) = pale_green)).
Proof.
  intros Hi Htable Hv H1 H2 Hp.
  eexists. split.
  - apply (resolve_from_table stocks columns i s values before gap1 gap2
             (Fin p) (Fin l)); trivial; discriminate.
  - cbn [price change_pct]. split; [reflexivity |]. split; [reflexivity |].
    split; intros H.
    + destruct (change_not_negative p l Hp H) as [-> | (q & -> & Hq)].
      * simpl. auto.
      * rewrite get_color_fin.
        split_comparisons; simpl; auto; exfalso; lra.
    + destruct (change_negative p l Hp H) as [-> | [-> | (q & -> & Hq)]].
      * left. simpl. auto.
      * right. split; reflexivity.
      * left. rewrite get_color_fin.
        split_comparisons; simpl; auto; exfalso; lra.
Qed.

(** Honda fell from 200 to 190: the change is [-5], on dark red. *)
Lemma rising_close_is_green_witness :
  exists r : StockResult,
    nth_error (fetch_price_data [toyota; sony; honda] grouped_table) 2
    = Some r /\
    change_pct r = Some (lit (-5)) /\ get_color (change_pct r) = dark_red.
Proof.
  edestruct (rising_close_is_green [toyota; sony; honda]
               [("7203.T",
                 DataFrame [("Close", Series [lit 100; NaN; lit 100; lit 105])]);
                ("7267.T", DataFrame [("Close", Series [lit 200; lit 190])]);
                ("6501.T", DataFrame [("Close", Series [NaN; NaN; lit 4000])])]
               2 honda [lit 200; lit 190] [] [] [] 200 190 eq_refl)
    as (r & Hr & _ & Hc & _ & _).
  - left. split; [discriminate |].
    exists [("Close", Series [lit 200; lit 190])]. split; reflexivity.
  - reflexivity.
  - constructor.
  - constructor.
  - reflexivity.
  - exists r. split; [exact Hr |]. rewrite Hc. split; reflexivity.
Defined.

(** X12.  A previous close of zero does not degrade the symbol: the
    price is the last close and the change is an infinity or NaN, so the
    tile is dark green or dark red. *)
Theorem zero_previous_close (stocks : list StockRef) (data : pdobj)
  (i : nat) (s : StockRef) (init : list pyfloat) (p l : Q) :
  nth_error stocks i = Some s ->
  valid_closes (map code stocks) data s = Ok (init ++ [Fin p; Fin l])%list ->
  (p == 0)%Q ->
  exists (r : StockResult) (c : pyfloat),
    nth_error (fetch_price_data stocks data) i = Some r /\
    price r = Some (Fin l) /\ change_pct r = Some c /\
    (forall q : Q, c <> Fin q) /\
    In (get_color (change_pct r)) [dark_green; dark_red].
Proof.
  intros Hi Hc Hp.
  assert (Hnth : nth_error (fetch_price_data stocks data) i
                 = Some (resolve_or_absent (map code stocks) data s)).
  { rewrite fetch_price_data_map, nth_error_map, Hi. reflexivity. }
  rewrite (resolve_or_absent_two _ _ _ init (Fin p) (Fin l) Hc) in Hnth.
  eexists _, _. split; [exact Hnth |]. cbn [price change_pct].
  split; [reflexivity |]. split; [reflexivity |].
  assert (Zp : is_zero (Fin p) = true) by now apply Qeq_bool_iff.
  assert (Np : negative (Fin p) = false) by (apply negative_fin_false; lra).
  assert (Hd : fsub (Fin l) (Fin p) = Fin 0 \/
               is_inf (fsub (Fin l) (Fin p)) = true \/
               exists r : Q, fsub (Fin l) (Fin p) = Fin r /\ ~ (r == 0)%Q).
  { destruct (Q_dec l p) as [[Hlt | Hgt] | Heq].
    - destruct (fsub_fin_lt l p Hlt) as [-> | (r & -> & Hr)]; [now auto |].
      right. right. exists r. split; [reflexivity | lra].
    - destruct (fsub_fin_gt l p Hgt) as [-> | (r & -> & Hr)]; [now auto |].
      right. right. exists r. split; [reflexivity | lra].
    - left. now apply fsub_fin_eq. }
  assert (Hq : fdiv (fsub (Fin l) (Fin p)) (Fin p) = NaN \/
               fdiv (fsub (Fin l) (Fin p)) (Fin p) = PosInf \/
               fdiv (fsub (Fin l) (Fin p)) (Fin p) = NegInf).
  { unfold fdiv. rewrite Zp, Np.
    destruct Hd as [-> | [Hinf | (r & -> & Hr)]].
    - now left.
    - destruct (fsub (Fin l) (Fin p)); try discriminate; simpl; auto.
    - cbn [is_nan is_inf orb]. rewrite (is_zero_fin_false r Hr).
      destruct (negative (Fin r)); simpl; auto. }
  destruct Hq as [-> | [-> | ->]]; simpl; split;
    try (intros q; discriminate); auto.
Qed.

(** A series that ends with the closes 0 and 50. *)
Lemma zero_previous_close_witness :
  exists (r : StockResult) (c : pyfloat),
    nth_error
      (fetch_price_data [toyota]
         (DataFrame [("Close", Series [lit 0; lit 50])])) 0
    = Some r /\
    price r = Some (Fin 50) /\ change_pct r = Some c /\
    (forall q : Q, c <> Fin q) /\
    In (get_color (change_pct r)) [dark_green; dark_red].
Proof.
  apply (zero_previous_close [toyota]
           (DataFrame [("Close", Series [lit 0; lit 50])]) 0 toyota
           [] 0 50 eq_refl eq_refl).
  reflexivity.
Defined.

(** ** Missing data *)

(** X13.  In a roster of several symbols, a symbol is absent when the
    table has no group under its code, when that entry is a bare column,
    when the group has no [Close] column, or when the [Close] column
    keeps fewer than two entries once the missing ones are dropped; a
    roster of one symbol is read at the top of the table, and its symbol
    is absent when there is no [Close] column there or that column keeps
    fewer than two entries. *)
Theorem missing_data_is_absent (stocks : list StockRef)
  (columns : list (string * pdobj)) (i : nat) (s : StockRef) :
  nth_error stocks i = Some s ->
  (List.length stocks <> 1 /\
   (lookup (code s) columns = None \/
    (exists vals, lookup (code s) columns = Some (Series vals)) \/
    (exists g, lookup (code s) columns = Some (DataFrame g) /\
               (lookup "Close" g = None \/
                exists vals,
                  lookup "Close" g = Some (Series vals) /\
                  List.length (filter (fun x => negb (is_nan x)) vals) < 2))))
  \/
  (List.length stocks = 1 /\
   (lookup "Close" columns = None \/
    exists vals,
      lookup "Close" columns = Some (Series vals) /\
      List.length (filter (fun x => negb (is_nan x)) vals) < 2)) ->
  nth_error (fetch_price_data stocks (DataFrame columns)) i
  = Some (absent s).
Proof.
  intros Hi H.
  rewrite fetch_price_data_map, nth_error_map, Hi. simpl. f_equal.
  apply resolve_or_absent_bad. unfold bad_symbol, valid_closes.
  rewrite length_map.
  destruct H as [[Hn H] | [Hn H]].
  - apply Nat.eqb_neq in Hn. rewrite Hn. simpl.
    destruct H as [-> | [(vals & ->) | (g & -> & H)]];
      try reflexivity.
    simpl. destruct H as [-> | (vals & -> & H)]; [reflexivity |].
    simpl. now apply Nat.ltb_lt.
  - rewrite Hn. simpl.
    destruct H as [-> | (vals & -> & H)]; [reflexivity |].
    simpl. now apply Nat.ltb_lt.
Qed.

(** Sony has no group, Hitachi a single valid close. *)
Lemma missing_data_is_absent_witness :
  nth_error
    (fetch_price_data [toyota; hitachi; sony] grouped_table) 2
  = Some (absent sony) /\
  nth_error
    (fetch_price_data [toyota; hitachi; sony] grouped_table) 1
  = Some (absent hitachi).
Proof.
  split.
  - apply (missing_data_is_absent [toyota; hitachi; sony] _ 2 sony eq_refl).
    left. split; [discriminate |]. left. reflexivity.
  - apply (missing_data_is_absent [toyota; hitachi; sony] _ 1 hitachi
             eq_refl).
    left. split; [discriminate |]. right. right.
    exists [("Close", Series [NaN; NaN; lit 4000])].
    split; [reflexivity |]. right.
    exists [NaN; NaN; lit 4000]. split; [reflexivity |]. simpl. lia.
Defined.

(** ** Special values in the classifier *)

(** At [-0.5] the table row of the pale-red bucket applies. *)
Lemma classify_table_witness :
  classify (Some (dec (-5) 1)) = (pale_red, dark_gray).
Proof.
  apply (classify_table (Some (dec (-5) 1))). split; reflexivity.
Defined.

(** ** Equal changes keep the order of the dataset *)

Lemma fle_trans (x y z : pyfloat) :
  fle x y = true -> fle y z = true -> fle x z = true.
Proof.
  destruct x as [a | | | | ], y as [b | | | | ], z as [c | | | | ];
    simpl; try discriminate; try reflexivity;
    intros H1 H2; try apply Qle_bool_iff in H1; try apply Qle_bool_iff in H2;
    apply Qle_bool_iff; lra.
Qed.

Lemma cmp_sign_fsub_gt_strict (u v : pyfloat) :
  cmp_sign (fsub u v) = Gt -> fle u v = false.
Proof.
  destruct (is_nan u) eqn:Nu; [destruct u; try discriminate; reflexivity |].
  destruct (is_nan v) eqn:Nv;
    [destruct u, v; try discriminate; reflexivity |].
  destruct (is_inf u) eqn:Iu;
    [destruct u, v; simpl in *; try congruence; discriminate |].
  destruct (is_inf v) eqn:Iv;
    [destruct u, v; simpl in *; try congruence; discriminate |].
  rewrite cmp_sign_fsub_finite, fle_finite, Qle_bool_compare by assumption.
  intros ->. reflexivity.
Qed.

Lemma array_sort_filter {A : Type} (cmp : A -> A -> pyfloat)
  (p : A -> bool) :
  (forall x y, p x = true -> p y = true -> cmp_sign (cmp x y) <> Gt) ->
  forall l, filter p (array_sort cmp l) = filter p l.
Proof.
  intros H.
  assert (Hins : forall x l,
             filter p (array_insert cmp x l) = filter p (x :: l)).
  { intros x l. induction l as [| y l IH]; [reflexivity |].
    cbn [array_insert].
    destruct (cmp_sign (cmp x y)) eqn:C; try reflexivity.
    cbn [filter] in *. rewrite IH.
    destruct (p x) eqn:Px, (p y) eqn:Py; try reflexivity.
    exfalso. now apply (H x y Px Py). }
  unfold array_sort. induction l as [| x l IH]; [reflexivity |].
  cbn [fold_right]. rewrite Hins. cbn [filter]. now rewrite IH.
Qed.

(** X14.  Both change-ordered modes are stable: the records whose
    change equals a given number, the absent ones counting as [0], come
    out in the order they have in the dataset. *)
Theorem change_views_stable (k : pyfloat) (stockData : list Js.stock) :
  filter (fun s => feq (change_key s) k) (change_desc stockData)
  = filter (fun s => feq (change_key s) k) stockData /\
  filter (fun s => feq (change_key s) k) (change_asc stockData)
  = filter (fun s => feq (change_key s) k) stockData.
Proof.
  assert (H : forall x y : Js.stock,
             feq (change_key x) k = true -> feq (change_key y) k = true ->
             fle (change_key x) (change_key y) = true).
  { intros x y Hx Hy. unfold feq in *.
    apply andb_true_iff in Hx, Hy.
    destruct Hx as [Hx _], Hy as [_ Hy]. exact (fle_trans _ _ _ Hx Hy). }
  split; apply array_sort_filter; intros x y Hx Hy C;
    apply cmp_sign_fsub_gt_strict in C.
  - pose proof (H y x Hy Hx) as Hle. unfold change_key in Hle.
    rewrite Hle in C. discriminate.
  - pose proof (H x y Hx Hy) as Hle. unfold change_key in Hle.
    rewrite Hle in C. discriminate.
Qed.
